(** * ShadyCSS [CustomStyleInterface]: a shallow embedding

    The JavaScript module [src/custom-style-interface.js] keeps a list of
    document-level style providers, coalesces validation requests and hands
    every not-yet-processed style to a transform hook.

    The embedding follows the module as it is written:
    - JavaScript objects (style elements and provider objects) live in a
      heap indexed by reference; the two hidden markers are properties of
      those objects, so they are shared by everything holding the reference;
    - the module-level variables ([readyPromise], [whenReady],
      [transformFn], [validateFn]) are fields of the world, not of an
      instance;
    - calls that leave the module (the provider's [getStyle] method,
      [setAttribute], the transform hook, the readiness schedulers, the
      validator) are recorded in a trace, in the order they are made.
      What a host function does when it is called belongs to the host: it
      shows as further operations on the world, after the call that made
      it, and a [getStyle] method is given by what it currently yields. *)

From stdpp Require Import gmap strings list fin_maps.

(** ** Data model *)

(** References to heap objects, identities of [CustomStyleInterface]
    instances, and identities of host-supplied functions. *)
Abbreviation Ref := nat (only parsing).
Abbreviation Inst := nat (only parsing).
Abbreviation Fn := nat (only parsing).

(** A heap object with the properties the module reads or writes.
    [getStyle = None] is an object without a (truthy) [getStyle] property;
    [getStyle = Some g] is a provider whose method currently yields [g]
    ([None] for null/undefined, [Some el] for the element [el]). *)
Record Obj := mkObj {
  seenByShadyCSS : bool;               (* obj[SEEN_MARKER] *)
  processedByShadyCSS : bool;          (* obj[PROCESSED_MARKER] *)
  getStyle : option (option Ref);      (* obj['getStyle'] *)
  appliedElement : option Ref;         (* obj['__appliedElement'] *)
  attributes : list (string * string)  (* obj.attributes, in document order *)
}.

(** A plain object without any of these properties. *)
Definition emptyObj : Obj := mkObj false false None None [].

(** Instance state set up by the constructor. *)
Record Registry := mkRegistry {
  customStyles : list Ref;   (* this['customStyles'] *)
  enqueued : bool            (* this['enqueued'] *)
}.

Definition newRegistry : Registry := mkRegistry [] false.

(** The module's [readyPromise]: settled or not, and the pending [then]
    reactions. *)
Record Promise := mkPromise {
  resolved : bool;
  reactions : list Fn
}.

Inductive ReadyState := loading | interactive | complete.

(** [document.readyState === 'complete'] *)
Definition isComplete (rs : ReadyState) : bool :=
  match rs with
  | complete => true
  | _ => false
  end.

(** Calls that leave the module.  The events of one [findStyles] entry
    carry the provider being processed. *)
Inductive Event :=
| EvGetStyle (p : Ref)                                  (* p.getStyle() *)
| EvSetAttribute (p target : Ref) (name value : string) (* target.setAttribute(name, value) *)
| EvTransform (p : Ref) (fn : Fn) (arg : Ref)           (* transformFn(arg) *)
| EvWhenReady (this : Inst) (fn : Fn)                   (* whenReady(validateFn) *)
| EvThen (this : Inst) (fn : Fn)                        (* readyPromise.then(validateFn) *)
| EvValidate (fn : Fn).                                 (* the validator runs *)

Record World := mkWorld {
  heap : gmap nat Obj;
  instances : gmap nat Registry;
  (* module-level variables *)
  readyPromise : option Promise;
  whenReady : bool;
  transformFn : option Fn;
  validateFn : option Fn;
  (* host environment *)
  readyState : ReadyState;      (* document.readyState *)
  listeners : nat;              (* 'readystatechange' listeners added by the module *)
  importsQueue : list Fn;       (* callbacks handed to HTMLImports.whenReady *)
  microtasks : list Fn;         (* promise reaction jobs waiting to run *)
  trace : list Event
}.

(** State of the world when the module has just been loaded. *)
Definition init (hasWhenReady : bool) (rs : ReadyState) : World :=
  mkWorld ∅ ∅ None hasWhenReady None None rs 0 [] [] [].

(** *** Field updates *)

Definition with_heap (h : gmap nat Obj) (w : World) : World :=
  mkWorld h (instances w) (readyPromise w) (whenReady w) (transformFn w)
    (validateFn w) (readyState w) (listeners w) (importsQueue w)
    (microtasks w) (trace w).

Definition with_instances (m : gmap nat Registry) (w : World) : World :=
  mkWorld (heap w) m (readyPromise w) (whenReady w) (transformFn w)
    (validateFn w) (readyState w) (listeners w) (importsQueue w)
    (microtasks w) (trace w).

Definition with_readyPromise (p : option Promise) (w : World) : World :=
  mkWorld (heap w) (instances w) p (whenReady w) (transformFn w)
    (validateFn w) (readyState w) (listeners w) (importsQueue w)
    (microtasks w) (trace w).

Definition with_transformFn (f : option Fn) (w : World) : World :=
  mkWorld (heap w) (instances w) (readyPromise w) (whenReady w) f
    (validateFn w) (readyState w) (listeners w) (importsQueue w)
    (microtasks w) (trace w).

Definition with_validateFn (f : option Fn) (w : World) : World :=
  mkWorld (heap w) (instances w) (readyPromise w) (whenReady w)
    (transformFn w) f (readyState w) (listeners w) (importsQueue w)
    (microtasks w) (trace w).

Definition with_readyState (rs : ReadyState) (w : World) : World :=
  mkWorld (heap w) (instances w) (readyPromise w) (whenReady w)
    (transformFn w) (validateFn w) rs (listeners w) (importsQueue w)
    (microtasks w) (trace w).

Definition with_listeners (n : nat) (w : World) : World :=
  mkWorld (heap w) (instances w) (readyPromise w) (whenReady w)
    (transformFn w) (validateFn w) (readyState w) n (importsQueue w)
    (microtasks w) (trace w).

Definition with_importsQueue (q : list Fn) (w : World) : World :=
  mkWorld (heap w) (instances w) (readyPromise w) (whenReady w)
    (transformFn w) (validateFn w) (readyState w) (listeners w) q
    (microtasks w) (trace w).

Definition with_microtasks (q : list Fn) (w : World) : World :=
  mkWorld (heap w) (instances w) (readyPromise w) (whenReady w)
    (transformFn w) (validateFn w) (readyState w) (listeners w)
    (importsQueue w) q (trace w).

Definition emit (e : Event) (w : World) : World :=
  mkWorld (heap w) (instances w) (readyPromise w) (whenReady w)
    (transformFn w) (validateFn w) (readyState w) (listeners w)
    (importsQueue w) (microtasks w) (trace w ++ [e]).

(** *** Reading and writing objects and instances

    A reference that was never written denotes a plain object, an instance
    identity that was never written an instance fresh from its
    constructor. *)

Definition obj (w : World) (r : Ref) : Obj := default emptyObj (heap w !! r).

Definition setObj (r : Ref) (o : Obj) (w : World) : World :=
  with_heap (<[r := o]> (heap w)) w.

Definition registry (w : World) (i : Inst) : Registry :=
  default newRegistry (instances w !! i).

Definition setRegistry (i : Inst) (r : Registry) (w : World) : World :=
  with_instances (<[i := r]> (instances w)) w.

Definition markSeen (o : Obj) : Obj :=
  mkObj true (processedByShadyCSS o) (getStyle o) (appliedElement o) (attributes o).

Definition markProcessed (o : Obj) : Obj :=
  mkObj (seenByShadyCSS o) true (getStyle o) (appliedElement o) (attributes o).

Definition withGetStyle (g : option (option Ref)) (o : Obj) : Obj :=
  mkObj (seenByShadyCSS o) (processedByShadyCSS o) g (appliedElement o) (attributes o).

Definition withApplied (a : option Ref) (o : Obj) : Obj :=
  mkObj (seenByShadyCSS o) (processedByShadyCSS o) (getStyle o) a (attributes o).

Definition withAttributes (l : list (string * string)) (o : Obj) : Obj :=
  mkObj (seenByShadyCSS o) (processedByShadyCSS o) (getStyle o) (appliedElement o) l.

(** ** The DOM and the promise, as far as the module uses them *)

(** [Element.setAttribute]: an attribute of that name gets the new value
    where it stands, a new attribute goes to the end. *)
Fixpoint set_attr (name value : string) (l : list (string * string))
  : list (string * string) :=
  match l with
  | [] => [(name, value)]
  | (n, v) :: t =>
      if decide (n = name) then (name, value) :: t
      else (n, v) :: set_attr name value t
  end.

(** [Element.getAttribute]. *)
Fixpoint get_attr (name : string) (l : list (string * string)) : option string :=
  match l with
  | [] => None
  | (n, v) :: t => if decide (n = name) then Some v else get_attr name t
  end.

(** [target.setAttribute(name, value)], called while processing [p]. *)
Definition setAttribute (p target : Ref) (name value : string) (w : World) : World :=
  let o := obj w target in
  emit (EvSetAttribute p target name value)
    (setObj target (withAttributes (set_attr name value (attributes o)) o) w).

(** The [resolve] function of [readyPromise], kept in [resolveFn]: the
    first call settles the promise and queues a job for every reaction. *)
Definition resolveFn (w : World) : World :=
  match readyPromise w with
  | Some p =>
      if resolved p then w
      else with_microtasks (microtasks w ++ reactions p)
             (with_readyPromise (Some (mkPromise true [])) w)
  | None => w
  end.

(** [readyPromise.then(fn)], called from instance [this]. *)
Definition promiseThen (this : Inst) (fn : Fn) (w : World) : World :=
  emit (EvThen this fn)
    match readyPromise w with
    | Some p =>
        if resolved p then with_microtasks (microtasks w ++ [fn]) w
        else with_readyPromise (Some (mkPromise false (reactions p ++ [fn]))) w
    | None => w
    end.

(** [whenReady(fn)]: the import-readiness scheduler takes the callback. *)
Definition callWhenReady (this : Inst) (fn : Fn) (w : World) : World :=
  emit (EvWhenReady this fn) (with_importsQueue (importsQueue w ++ [fn]) w).

(** The listener the module adds for 'readystatechange'. *)
Definition readyListener (w : World) : World :=
  if isComplete (readyState w) then resolveFn w else w.

(** ** The methods of [CustomStyleInterface] *)

(** [constructor()]: a new instance, under an identity not in use. *)
Definition construct (w : World) : Inst * World :=
  let i := fresh (dom (instances w)) in
  (i, setRegistry i newRegistry w).

(** [enqueueDocumentValidation()] *)
Definition enqueueDocumentValidation (this : Inst) (w : World) : World :=
  match enqueued (registry w this), validateFn w with
  | false, Some vf =>
      let w1 := setRegistry this (mkRegistry (customStyles (registry w this)) true) w in
      if whenReady w1 then callWhenReady this vf w1
      else
        let w2 :=
          match readyPromise w1 with
          | None =>
              let w' := with_readyPromise (Some (mkPromise false [])) w1 in
              if isComplete (readyState w') then resolveFn w'
              else with_listeners (S (listeners w')) w'
          | Some _ => w1
          end in
        promiseThen this vf w2
  | _, _ => w
  end.

(** [addCustomStyle(style)] *)
Definition addCustomStyle (this : Inst) (style : Ref) (w : World) : World :=
  if seenByShadyCSS (obj w style) then w
  else
    let w1 := setObj style (markSeen (obj w style)) w in
    let r := registry w1 this in
    let w2 := setRegistry this (mkRegistry (customStyles r ++ [style]) (enqueued r)) w1 in
    enqueueDocumentValidation this w2.

(** [getStyleForCustomStyle(customStyle)] *)
Definition getStyleForCustomStyle (this : Inst) (customStyle : Ref) (w : World)
  : option Ref * World :=
  match getStyle (obj w customStyle) with
  | Some g => (g, emit (EvGetStyle customStyle) w)
  | None => (Some customStyle, w)
  end.

(** The inner loop of [findStyles]:
    [for (let i = 0; i < style.attributes.length; i++)], which reads
    [style.attributes] anew at every turn. *)
Fixpoint copyAttributes_from (fuel i : nat) (p style appliedStyle : Ref) (w : World)
  : World :=
  match fuel with
  | 0 => w
  | S fuel' =>
      match attributes (obj w style) !! i with
      | None => w
      | Some (name, value) =>
          copyAttributes_from fuel' (S i) p style appliedStyle
            (setAttribute p appliedStyle name value w)
      end
  end.

Definition copyAttributes (p style appliedStyle : Ref) (w : World) : World :=
  copyAttributes_from (length (attributes (obj w style))) 0 p style appliedStyle w.

(** The body of the outer loop of [findStyles] for the entry [customStyle]. *)
Definition processStyle (this : Inst) (customStyle : Ref) (w : World) : World :=
  if processedByShadyCSS (obj w customStyle) then w
  else
    let '(style, w1) := getStyleForCustomStyle this customStyle w in
    match style with
    | None => w1
    | Some st =>
        let w2 := setObj customStyle (markProcessed (obj w1 customStyle)) w1 in
        let appliedStyle := appliedElement (obj w2 st) in
        let w3 :=
          match appliedStyle with
          | Some a => copyAttributes customStyle st a w2
          | None => w2
          end in
        match transformFn w3 with
        | Some tf => emit (EvTransform customStyle tf (default st appliedStyle)) w3
        | None => w3
        end
    end.

(** The outer loop, [for (let i = 0; i < cs.length; i++)], where [cs] is
    the instance's own array, read anew at every turn. *)
Fixpoint findStyles_from (fuel i : nat) (this : Inst) (w : World) : World :=
  match fuel with
  | 0 => w
  | S fuel' =>
      match customStyles (registry w this) !! i with
      | None => w
      | Some customStyle =>
          findStyles_from fuel' (S i) this (processStyle this customStyle w)
      end
  end.

(** [findStyles()] *)
Definition findStyles (this : Inst) (w : World) : World :=
  findStyles_from (length (customStyles (registry w this))) 0 this w.

Definition set_transformCallback (this : Inst) (fn : option Fn) (w : World) : World :=
  with_transformFn fn w.
Definition set_validateCallback (this : Inst) (fn : option Fn) (w : World) : World :=
  with_validateFn fn w.

(** ** The host environment *)

(** The document's state changes and 'readystatechange' is dispatched to
    every listener the module added. *)
Definition readyStateChange (rs : ReadyState) (w : World) : World :=
  Nat.iter (listeners w) readyListener (with_readyState rs w).

(** The next promise reaction job runs. *)
Definition runMicrotask (w : World) : World :=
  match microtasks w with
  | [] => w
  | fn :: q => emit (EvValidate fn) (with_microtasks q w)
  end.

(** The import-readiness scheduler invokes the next callback it holds. *)
Definition importsReady (w : World) : World :=
  match importsQueue w with
  | [] => w
  | fn :: q => emit (EvValidate fn) (with_importsQueue q w)
  end.

(** Everything that can happen to the module during a page's life. *)
Inductive Op :=
| OpConstruct
| OpEnqueue (this : Inst)
| OpAddCustomStyle (this : Inst) (style : Ref)
| OpGetStyleFor (this : Inst) (customStyle : Ref)
| OpFindStyles (this : Inst)
| OpSetTransform (this : Inst) (fn : option Fn)
| OpSetValidate (this : Inst) (fn : option Fn)
| OpHostGetStyle (o : Ref) (g : option (option Ref))
| OpHostApplied (o : Ref) (a : option Ref)
| OpHostAttribute (o : Ref) (name value : string)
| OpReadyStateChange (rs : ReadyState)
| OpMicrotask
| OpImportsReady.

Definition exec (op : Op) (w : World) : World :=
  match op with
  | OpConstruct => snd (construct w)
  | OpEnqueue this => enqueueDocumentValidation this w
  | OpAddCustomStyle this style => addCustomStyle this style w
  | OpGetStyleFor this customStyle => snd (getStyleForCustomStyle this customStyle w)
  | OpFindStyles this => findStyles this w
  | OpSetTransform this fn => set_transformCallback this fn w
  | OpSetValidate this fn => set_validateCallback this fn w
  | OpHostGetStyle o g => setObj o (withGetStyle g (obj w o)) w
  | OpHostApplied o a => setObj o (withApplied a (obj w o)) w
  | OpHostAttribute o name value =>
      setObj o (withAttributes (set_attr name value (attributes (obj w o))) (obj w o)) w
  | OpReadyStateChange rs => readyStateChange rs w
  | OpMicrotask => runMicrotask w
  | OpImportsReady => importsReady w
  end.

Definition run (ops : list Op) (w : World) : World :=
  fold_left (fun w op => exec op w) ops w.

(** Worlds the module can be in. *)
Inductive reachable : World -> Prop :=
| reach_init hasWhenReady rs : reachable (init hasWhenReady rs)
| reach_step op w : reachable w -> reachable (exec op w).

(** ** Observations on worlds and traces *)

Fixpoint count_events (f : Event -> bool) (t : list Event) : nat :=
  match t with
  | [] => 0
  | e :: t' => (if f e then 1 else 0) + count_events f t'
  end.

(** The provider a [findStyles] event belongs to. *)
Definition ev_provider (e : Event) : option Ref :=
  match e with
  | EvGetStyle p | EvSetAttribute p _ _ _ | EvTransform p _ _ => Some p
  | EvWhenReady _ _ | EvThen _ _ | EvValidate _ => None
  end.

Definition isTransformOf (p : Ref) (e : Event) : bool :=
  match e with
  | EvTransform q _ _ => bool_decide (q = p)
  | _ => false
  end.

Definition isScheduleOf (i : Inst) (e : Event) : bool :=
  match e with
  | EvWhenReady j _ | EvThen j _ => bool_decide (j = i)
  | _ => false
  end.

Definition isSchedule (e : Event) : bool :=
  match e with
  | EvWhenReady _ _ | EvThen _ _ => true
  | _ => false
  end.

Definition isValidate (e : Event) : bool :=
  match e with
  | EvValidate _ => true
  | _ => false
  end.

(** How often the transform hook was called for provider [p]. *)
Definition transformsOf (p : Ref) (t : list Event) : nat :=
  count_events (isTransformOf p) t.

(** How often instance [i] handed the validator to a scheduler. *)
Definition schedulesOf (i : Inst) (t : list Event) : nat :=
  count_events (isScheduleOf i) t.

Definition schedules (t : list Event) : nat := count_events isSchedule t.

(** How often the validator ran. *)
Definition validations (t : list Event) : nat := count_events isValidate t.

(** Validator invocations that are scheduled and have not happened yet. *)
Definition pending (w : World) : nat :=
  length (importsQueue w) + length (microtasks w) +
  match readyPromise w with
  | Some p => length (reactions p)
  | None => 0
  end.

(** The events added to the trace on the way from [w] to [w']. *)
Definition emitted (w w' : World) : list Event :=
  drop (length (trace w)) (trace w').

(** The scheduling call [enqueueDocumentValidation] makes in world [w]. *)
Definition scheduleEvent (w : World) (this : Inst) (vf : Fn) : Event :=
  if whenReady w then EvWhenReady this vf else EvThen this vf.

(** The two ways of asking instance [this] for a validation. *)
Inductive Call :=
| CallEnqueue
| CallAddCustomStyle (style : Ref).

Definition callOp (this : Inst) (c : Call) : Op :=
  match c with
  | CallEnqueue => OpEnqueue this
  | CallAddCustomStyle style => OpAddCustomStyle this style
  end.

(** Host events, and further requests to instance [this]. *)
Definition quietFor (this : Inst) (op : Op) : bool :=
  match op with
  | OpReadyStateChange _ | OpMicrotask | OpImportsReady => true
  | OpEnqueue i | OpAddCustomStyle i _ => bool_decide (i = this)
  | _ => false
  end.

(** Attribute names of an element are pairwise different, as in the DOM. *)
Definition uniqueNames (l : list (string * string)) : Prop := NoDup (l.*1).

(** Events of consecutive entries: [es] splits into one block per entry of
    [l], in the order of [l]. *)
Inductive blocks : list Ref -> list Event -> Prop :=
| blocks_nil : blocks [] []
| blocks_cons p l b es :
    Forall (fun e => ev_provider e = Some p) b ->
    blocks l es ->
    blocks (p :: l) (b ++ es).

(** Invariants of reachable worlds. *)
Record invariant (w : World) : Prop := mkInvariant {
  inv_seen : forall i p, p ∈ customStyles (registry w i) -> seenByShadyCSS (obj w p) = true;
  inv_nodup : forall i, NoDup (customStyles (registry w i));
  inv_owner : forall i j p,
    p ∈ customStyles (registry w i) -> p ∈ customStyles (registry w j) -> i = j;
  inv_names : forall o, uniqueNames (attributes (obj w o))
}.

(** [findStyles] over the entries [l], one after the other. *)
Definition processStyles (this : Inst) (l : list Ref) (w : World) : World :=
  fold_left (fun w customStyle => processStyle this customStyle w) l w.

(** What a [findStyles] pass over the entries [ps] leaves alone: the
    instances, the module variables, the host environment, and of the
    objects everything but attributes and the processed marker, which is
    set for entries of [ps] at most and never cleared. *)
Record frame (ps : list Ref) (w w' : World) : Prop := mkFrame {
  fr_instances : instances w' = instances w;
  fr_readyPromise : readyPromise w' = readyPromise w;
  fr_whenReady : whenReady w' = whenReady w;
  fr_transformFn : transformFn w' = transformFn w;
  fr_validateFn : validateFn w' = validateFn w;
  fr_readyState : readyState w' = readyState w;
  fr_listeners : listeners w' = listeners w;
  fr_importsQueue : importsQueue w' = importsQueue w;
  fr_microtasks : microtasks w' = microtasks w;
  fr_seen : forall o, seenByShadyCSS (obj w' o) = seenByShadyCSS (obj w o);
  fr_getStyle : forall o, getStyle (obj w' o) = getStyle (obj w o);
  fr_applied : forall o, appliedElement (obj w' o) = appliedElement (obj w o);
  fr_processed : forall o,
    processedByShadyCSS (obj w o) = true -> processedByShadyCSS (obj w' o) = true;
  fr_unprocessed : forall o,
    o ∉ ps -> processedByShadyCSS (obj w' o) = processedByShadyCSS (obj w o);
  fr_names :
    (forall o, uniqueNames (attributes (obj w o))) ->
    forall o, uniqueNames (attributes (obj w' o))
}.

(** From [w] to [w'] every provider is transformed at most once more, and
    only if it was not processed before. *)
Definition transformOnce (w w' : World) : Prop :=
  forall p,
    (processedByShadyCSS (obj w' p) = processedByShadyCSS (obj w p) /\
     transformsOf p (trace w') = transformsOf p (trace w)) \/
    (processedByShadyCSS (obj w p) = false /\
     processedByShadyCSS (obj w' p) = true /\
     transformsOf p (trace w') <= S (transformsOf p (trace w))).

(** From [w] to [w'] every instance schedules the validator at most once,
    and only if its flag was not set before. *)
Definition scheduleOnce (w w' : World) : Prop :=
  forall i,
    (enqueued (registry w' i) = enqueued (registry w i) /\
     schedulesOf i (trace w') = schedulesOf i (trace w)) \/
    (enqueued (registry w i) = false /\
     enqueued (registry w' i) = true /\
     schedulesOf i (trace w') = S (schedulesOf i (trace w))).

(** Every run of the validator was scheduled before: what ran and what is
    pending grows exactly with the scheduling calls. *)
Definition accounted (w w' : World) : Prop :=
  validations (trace w') + pending w' + schedules (trace w) =
  validations (trace w) + pending w + schedules (trace w').

(** The events [setAttribute] leaves in the trace while [p] is processed. *)
Definition isSetAttributeOf (p target : Ref) (e : Event) : Prop :=
  exists name value, e = EvSetAttribute p target name value.

(** The calls made for entry [p] before the transform hook is reached. *)
Definition isPreparationOf (p : Ref) (e : Event) : Prop :=
  e = EvGetStyle p \/ exists target name value, e = EvSetAttribute p target name value.

(** The call of the transform hook for entry [p] that resolved to [st], in
    a world where no hook may be configured. *)
Definition transformCall (w : World) (p st : Ref) : list Event :=
  match transformFn w with
  | Some tf => [EvTransform p tf (default st (appliedElement (obj w st)))]
  | None => []
  end.

(** What an operation appends to the array of instance [i]. *)
Definition pushed (op : Op) (w : World) (i : Inst) : list Ref :=
  match op with
  | OpAddCustomStyle this style =>
      if bool_decide (this = i) && negb (seenByShadyCSS (obj w style))
      then [style] else []
  | _ => []
  end.

(** The first two statements of the branch of [addCustomStyle]: mark the
    style, push it. *)
Definition markAndPush (this : Inst) (style : Ref) (w : World) : World :=
  let w1 := setObj style (markSeen (obj w style)) w in
  let r := registry w1 this in
  setRegistry this (mkRegistry (customStyles r ++ [style]) (enqueued r)) w1.

(** What every operation guarantees. *)
Record effect (w w' : World) : Prop := mkEffect {
  ef_seen : forall o,
    seenByShadyCSS (obj w o) = true -> seenByShadyCSS (obj w' o) = true;
  ef_names :
    (forall o, uniqueNames (attributes (obj w o))) ->
    forall o, uniqueNames (attributes (obj w' o));
  ef_transformOnce : transformOnce w w';
  ef_scheduleOnce : scheduleOnce w w';
  ef_accounted : accounted w w'
}.

(** How often [x] stands in [l]. *)
Fixpoint occurrences (x : Ref) (l : list Ref) : nat :=
  match l with
  | [] => 0
  | y :: l' => (if bool_decide (y = x) then 1 else 0) + occurrences x l'
  end.

(** A request that gets as far as [enqueueDocumentValidation]:
    [addCustomStyle] calls it for a style it has not seen. *)
Definition reachesEnqueue (w : World) (c : Call) : Prop :=
  match c with
  | CallEnqueue => True
  | CallAddCustomStyle style => seenByShadyCSS (obj w style) = false
  end.


(** ** Sample worlds *)

(** A page that is still loading, without HTML Imports, with a validator
    [9] and a transform hook [7] configured. *)
Definition page : World :=
  run [OpSetValidate 0 (Some 9); OpSetTransform 0 (Some 7)] (init false loading).

(** The style element [1] with the attributes [id="a"] and [class="b"],
    cloned by the imports polyfill into the element [2], which has no
    attributes; and a provider [3] whose getter yields nothing yet.  Both
    are registered with instance [0]. *)
Definition styled_page : World :=
  run [OpHostAttribute 1 "id" "a"; OpHostAttribute 1 "class" "b";
       OpHostApplied 1 (Some 2); OpHostGetStyle 3 (Some None);
       OpAddCustomStyle 0 1; OpAddCustomStyle 0 3] page.

(** ** Observations on the two readiness paths *)

(** The function handed over by a scheduling call. *)
Definition scheduledFn (e : Event) : option Fn :=
  match e with
  | EvWhenReady _ fn | EvThen _ fn => Some fn
  | _ => None
  end.

(** The function a validator run executes. *)
Definition validatedFn (e : Event) : option Fn :=
  match e with
  | EvValidate fn => Some fn
  | _ => None
  end.

Definition scheduledFns (t : list Event) : list Fn := omap scheduledFn t.
Definition validatedFns (t : list Event) : list Fn := omap validatedFn t.

(** The reactions waiting on [readyPromise]. *)
Definition reactionsOf (w : World) : list Fn :=
  match readyPromise w with
  | Some p => reactions p
  | None => []
  end.

(** The scheduled functions that have not run, oldest first. *)
Definition waiting (w : World) : list Fn :=
  importsQueue w ++ microtasks w ++ reactionsOf w.

(** How the module-level wait stands in a reachable world. *)
Record readiness (w : World) : Prop := mkReadiness {
  rd_imports : whenReady w = true ->
    readyPromise w = None /\ listeners w = 0 /\ microtasks w = [];
  rd_document : whenReady w = false -> importsQueue w = [];
  rd_unbuilt : readyPromise w = None -> listeners w = 0 /\ microtasks w = [];
  rd_settled : forall p,
    readyPromise w = Some p -> resolved p = true -> reactions p = [];
  rd_unsettled : forall p,
    readyPromise w = Some p -> resolved p = false ->
    listeners w = 1 /\ isComplete (readyState w) = false /\ microtasks w = [];
  rd_listeners : listeners w <= 1;
  rd_fifo : validatedFns (trace w) ++ waiting w = scheduledFns (trace w)
}.

(** A change of the document's state to 'complete'. *)
Definition isCompletion (op : Op) : bool :=
  match op with
  | OpReadyStateChange rs => isComplete rs
  | _ => false
  end.

(** [readyPromise] has been settled. *)
Definition settled (w : World) : bool :=
  match readyPromise w with
  | Some p => resolved p
  | None => false
  end.

(** A page without HTML Imports whose document has not been 'complete'
    so far. *)
Record loadingPage (w : World) : Prop := mkLoadingPage {
  lp_readiness : readiness w;
  lp_path : whenReady w = false;
  lp_state : isComplete (readyState w) = false;
  lp_unsettled : settled w = false;
  lp_silent : validatedFns (trace w) = []
}.

(** The operations that reach the readiness paths or the queues. *)
Definition touchesReadiness (op : Op) : bool :=
  match op with
  | OpEnqueue _ | OpAddCustomStyle _ _ | OpReadyStateChange _
  | OpMicrotask | OpImportsReady => true
  | _ => false
  end.

(** ** Observations on passes *)


(** A world after further calls that change nothing but the trace. *)
Definition emitAll (es : list Event) (w : World) : World :=
  fold_left (fun w e => emit e w) es w.


(** Only registered providers are processed, and only processed ones
    transformed. *)
Definition tracked (w : World) : Prop :=
  forall p,
    (processedByShadyCSS (obj w p) = true ->
     exists i, p ∈ customStyles (registry w i)) /\
    (0 < transformsOf p (trace w) -> processedByShadyCSS (obj w p) = true).

(** ** More sample worlds *)

(** The sample page after two instances asked for a validation, the
    second with another validator. *)
Definition asked_page : World :=
  run [OpEnqueue 0; OpSetValidate 1 (Some 8); OpEnqueue 1] page.

(** The same requests on a page with HTML Imports. *)
Definition imports_page : World :=
  run [OpSetValidate 0 (Some 9); OpEnqueue 0; OpSetValidate 1 (Some 8); OpEnqueue 1]
      (init true loading).

(** A page whose document is 'complete' when the module is loaded. *)
Definition loaded_page : World :=
  run [OpSetValidate 0 (Some 9)] (init false complete).


(** * Proofs *)

(** ** Counting events *)

Lemma count_events_app f t1 t2 :
  count_events f (t1 ++ t2) = count_events f t1 + count_events f t2.
Proof. induction t1 as [|e t1 IH]; simpl; [done | rewrite IH; lia]. Qed.

Lemma count_events_zero f t :
  Forall (fun e => f e = false) t -> count_events f t = 0.
Proof. induction 1 as [|e t He _ IH]; simpl; [done | by rewrite He, IH]. Qed.

Lemma transformsOf_app p t1 t2 :
  transformsOf p (t1 ++ t2) = transformsOf p t1 + transformsOf p t2.
Proof. apply count_events_app. Qed.

Lemma schedulesOf_app i t1 t2 :
  schedulesOf i (t1 ++ t2) = schedulesOf i t1 + schedulesOf i t2.
Proof. apply count_events_app. Qed.

Lemma schedules_app t1 t2 : schedules (t1 ++ t2) = schedules t1 + schedules t2.
Proof. apply count_events_app. Qed.

Lemma validations_app t1 t2 : validations (t1 ++ t2) = validations t1 + validations t2.
Proof. apply count_events_app. Qed.


(** ** Attributes *)

Lemma set_attr_present name value l :
  name ∈ l.*1 -> (set_attr name value l).*1 = l.*1.
Proof.
  induction l as [|[n v] t IH]; csimpl; intros Hin.
  - by apply elem_of_nil in Hin.
  - destruct (decide (n = name)) as [->|Hne]; csimpl; [done|].
    apply elem_of_cons in Hin as [Heq|Hin]; [congruence|]. by rewrite IH.
Qed.

Lemma set_attr_absent name value l :
  name ∉ l.*1 -> set_attr name value l = l ++ [(name, value)].
Proof.
  induction l as [|[n v] t IH]; csimpl; intros Hin; [done|].
  apply not_elem_of_cons in Hin as [Hne Hin].
  destruct (decide (n = name)); [congruence|]. by rewrite IH.
Qed.

Lemma set_attr_length_present name value l :
  name ∈ l.*1 -> length (set_attr name value l) = length l.
Proof.
  intros Hin. rewrite <- (length_fmap fst), set_attr_present by done.
  by rewrite length_fmap.
Qed.

Lemma set_attr_unique name value l :
  uniqueNames l -> uniqueNames (set_attr name value l).
Proof.
  unfold uniqueNames. intros Hl.
  destruct (decide (name ∈ l.*1)) as [Hin|Hin].
  - by rewrite set_attr_present.
  - rewrite set_attr_absent, fmap_app by done. simpl.
    apply NoDup_app. split; [done|]. split.
    + intros x Hx Hx'. apply list_elem_of_singleton in Hx'. by subst.
    + apply NoDup_singleton.
Qed.

Lemma get_set_attr_eq name value l :
  get_attr name (set_attr name value l) = Some value.
Proof.
  induction l as [|[n v] t IH]; simpl.
  - by rewrite decide_True.
  - destruct (decide (n = name)) as [->|Hne]; simpl.
    + by rewrite decide_True.
    + by rewrite decide_False.
Qed.

Lemma get_set_attr_ne name value other l :
  name ≠ other -> get_attr other (set_attr name value l) = get_attr other l.
Proof.
  intros Hne. induction l as [|[n v] t IH]; simpl.
  - by rewrite decide_False.
  - destruct (decide (n = name)) as [->|Hn]; simpl.
    + by rewrite !decide_False.
    + by rewrite IH.
Qed.

Lemma get_attr_unique name value l :
  uniqueNames l -> (name, value) ∈ l -> get_attr name l = Some value.
Proof.
  unfold uniqueNames.
  induction l as [|[n v] t IH]; csimpl; intros Hl Hin.
  - by apply elem_of_nil in Hin.
  - apply NoDup_cons in Hl as [Hn Hl].
    apply elem_of_cons in Hin as [Heq|Hin].
    + injection Heq as <- <-. by rewrite decide_True.
    + destruct (decide (n = name)) as [->|Hne]; [|by apply IH].
      exfalso. apply Hn. apply list_elem_of_fmap. by exists (name, value).
Qed.

Lemma set_attr_same name value l :
  get_attr name l = Some value -> set_attr name value l = l.
Proof.
  induction l as [|[n v] t IH]; simpl; [done|].
  destruct (decide (n = name)) as [->|Hne].
  - by intros [= ->].
  - intros H. by rewrite IH.
Qed.

Lemma get_attr_names name value l : get_attr name l = Some value -> name ∈ l.*1.
Proof.
  induction l as [|[n v] t IH]; csimpl; [done|].
  destruct (decide (n = name)) as [->|Hne]; [intros; apply elem_of_cons; by left|].
  intros H. apply elem_of_cons. right. by apply IH.
Qed.

(** ** Objects and instances *)

Lemma obj_setObj r o w r' :
  obj (setObj r o w) r' = if decide (r = r') then o else obj w r'.
Proof.
  unfold obj, setObj. simpl. destruct (decide (r = r')) as [->|Hne].
  - by rewrite lookup_insert_eq.
  - by rewrite lookup_insert_ne.
Qed.

Lemma registry_setRegistry i r w j :
  registry (setRegistry i r w) j = if decide (i = j) then r else registry w j.
Proof.
  unfold registry, setRegistry. simpl. destruct (decide (i = j)) as [->|Hne].
  - by rewrite lookup_insert_eq.
  - by rewrite lookup_insert_ne.
Qed.

Lemma registry_unwritten w i : instances w !! i = None -> registry w i = newRegistry.
Proof. unfold registry. by intros ->. Qed.

Lemma construct_registry w j :
  registry (snd (construct w)) j = registry w j.
Proof.
  unfold construct. simpl. rewrite registry_setRegistry.
  destruct (decide (fresh (dom (instances w)) = j)) as [<-|]; [|done].
  symmetry. apply registry_unwritten. apply not_elem_of_dom, is_fresh.
Qed.

(** ** Frames *)

Lemma frame_refl ps w : frame ps w w.
Proof. by constructor. Qed.

Lemma frame_trans ps1 ps2 w1 w2 w3 :
  frame ps1 w1 w2 -> frame ps2 w2 w3 -> frame (ps1 ++ ps2) w1 w3.
Proof.
  intros [] []. constructor; try congruence; try (intros; etrans; eauto; fail); eauto.
  intros o Ho. apply not_elem_of_app in Ho as [? ?]. etrans; eauto.
Qed.

Lemma frame_weaken ps ps' w w' : ps ⊆ ps' -> frame ps w w' -> frame ps' w w'.
Proof. intros Hsub []. constructor; eauto. Qed.

Lemma frame_registry ps w w' i : frame ps w w' -> registry w' i = registry w i.
Proof. intros H. unfold registry. by rewrite (fr_instances _ _ _ H). Qed.

Lemma frame_pending ps w w' : frame ps w w' -> pending w' = pending w.
Proof.
  intros H. unfold pending.
  by rewrite (fr_importsQueue _ _ _ H), (fr_microtasks _ _ _ H), (fr_readyPromise _ _ _ H).
Qed.

(** ** [setAttribute] and the attribute loop *)

Lemma setAttribute_obj p a name value w o :
  obj (setAttribute p a name value w) o =
  if decide (a = o)
  then withAttributes (set_attr name value (attributes (obj w a))) (obj w a)
  else obj w o.
Proof. unfold setAttribute. apply obj_setObj. Qed.

Lemma setAttribute_frame p a name value w :
  frame [] w (setAttribute p a name value w).
Proof.
  constructor; try done; intros;
    rewrite ?setAttribute_obj; try (case_decide; subst; done).
  case_decide; subst; [|done].
  simpl. by apply set_attr_unique.
Qed.

Lemma setAttribute_trace p a name value w :
  trace (setAttribute p a name value w) = trace w ++ [EvSetAttribute p a name value].
Proof. done. Qed.

(** Copying an attribute of [style] never changes how many attributes
    [style] has, also when it is its own counterpart. *)
Lemma setAttribute_length p style a i name value w :
  attributes (obj w style) !! i = Some (name, value) ->
  length (attributes (obj (setAttribute p a name value w) style)) =
  length (attributes (obj w style)).
Proof.
  intros Hi. rewrite setAttribute_obj. case_decide; [subst|done]. simpl.
  apply set_attr_length_present. apply list_elem_of_fmap.
  exists (name, value). split; [done|]. by eapply list_elem_of_lookup_2.
Qed.

(** The loop ends because its test fails, not for lack of fuel. *)
Lemma copyAttributes_from_fuel fuel i p style a w :
  length (attributes (obj w style)) <= i + fuel ->
  copyAttributes_from (S fuel) i p style a w = copyAttributes_from fuel i p style a w.
Proof.
  revert i w. induction fuel as [|fuel IH]; intros i w Hlen.
  - simpl. rewrite lookup_ge_None_2; [done | lia].
  - change (copyAttributes_from (S (S fuel)) i p style a w) with
      (match attributes (obj w style) !! i with
       | None => w
       | Some (name, value) =>
           copyAttributes_from (S fuel) (S i) p style a (setAttribute p a name value w)
       end).
    simpl. destruct (attributes (obj w style) !! i) as [[name value]|] eqn:Hi; [|done].
    apply IH. erewrite setAttribute_length by done. lia.
Qed.

Lemma copyAttributes_from_enough fuel extra i p style a w :
  length (attributes (obj w style)) <= i + fuel ->
  copyAttributes_from (fuel + extra) i p style a w =
  copyAttributes_from fuel i p style a w.
Proof.
  intros Hlen. induction extra as [|extra IH].
  - by rewrite Nat.add_0_r.
  - rewrite Nat.add_succ_r, copyAttributes_from_fuel by lia. exact IH.
Qed.

Lemma copyAttributes_from_frame fuel i p style a w :
  frame [] w (copyAttributes_from fuel i p style a w).
Proof.
  revert i w. induction fuel as [|fuel IH]; intros i w; simpl.
  - apply frame_refl.
  - destruct (attributes (obj w style) !! i) as [[name value]|]; [|apply frame_refl].
    change (@nil nat) with (@nil nat ++ []).
    eapply frame_trans; [apply setAttribute_frame | apply IH].
Qed.

Lemma copyAttributes_from_trace fuel i p style a w :
  exists es,
    trace (copyAttributes_from fuel i p style a w) = trace w ++ es /\
    Forall (isSetAttributeOf p a) es.
Proof.
  revert i w. induction fuel as [|fuel IH]; intros i w; simpl.
  - exists []. by rewrite app_nil_r.
  - destruct (attributes (obj w style) !! i) as [[name value]|].
    + destruct (IH (S i) (setAttribute p a name value w)) as (es & -> & Hes).
      exists (EvSetAttribute p a name value :: es). split.
      * rewrite setAttribute_trace. by rewrite <- app_assoc.
      * constructor; [by exists name, value | done].
    + exists []. by rewrite app_nil_r.
Qed.


(** With pairwise different names, the loop leaves the attributes of
    [style] as they are and gives the counterpart every attribute from
    position [i] on. *)
Lemma copyAttributes_from_copies fuel i p style a w :
  uniqueNames (attributes (obj w style)) ->
  length (attributes (obj w style)) <= i + fuel ->
  let w' := copyAttributes_from fuel i p style a w in
  attributes (obj w' style) = attributes (obj w style) /\
  (forall j name value, i <= j ->
     attributes (obj w style) !! j = Some (name, value) ->
     get_attr name (attributes (obj w' a)) = Some value) /\
  (forall name,
     (forall j value, i <= j -> attributes (obj w style) !! j ≠ Some (name, value)) ->
     get_attr name (attributes (obj w' a)) = get_attr name (attributes (obj w a))).
Proof.
  revert i w. induction fuel as [|fuel IH]; intros i w Hu Hlen; simpl.
  - split; [done|]. split; [|done].
    intros j name value Hij Hj. apply lookup_lt_Some in Hj. lia.
  - destruct (attributes (obj w style) !! i) as [[n v]|] eqn:Hi.
    + set (w1 := setAttribute p a n v w).
      assert (Hsame : attributes (obj w1 style) = attributes (obj w style)).
      { unfold w1. rewrite setAttribute_obj. case_decide; [subst|done]. simpl.
        apply set_attr_same, get_attr_unique; [done|].
        by eapply list_elem_of_lookup_2. }
      destruct (IH (S i) w1) as (IH1 & IH2 & IH3).
      { by rewrite Hsame. } { rewrite Hsame. lia. }
      rewrite Hsame in IH1, IH2, IH3.
      assert (Hlater : forall j value, S i <= j ->
                attributes (obj w style) !! j ≠ Some (n, value)).
      { intros j value Hij Hj.
        assert (Hfst : (attributes (obj w style)).*1 !! i = Some n)
          by (by rewrite list_lookup_fmap, Hi).
        assert (Hfst' : (attributes (obj w style)).*1 !! j = Some n)
          by (by rewrite list_lookup_fmap, Hj).
        pose proof (NoDup_lookup _ _ _ _ Hu Hfst Hfst'). lia. }
      split; [done|]. split.
      * intros j name value Hij Hj.
        destruct (decide (j = i)) as [->|Hne].
        -- rewrite Hi in Hj. injection Hj as <- <-.
           rewrite IH3 by done. unfold w1. rewrite setAttribute_obj, decide_True by done.
           simpl. apply get_set_attr_eq.
        -- apply (IH2 j); [lia | done].
      * intros name Hname. rewrite IH3 by (intros; apply Hname; lia).
        unfold w1. rewrite setAttribute_obj, decide_True by done. simpl.
        apply get_set_attr_ne. intros ->. by apply (Hname i v).
    + split; [done|]. split; [|done].
      intros j name value Hij Hj. apply lookup_lt_Some in Hj.
      apply lookup_ge_None_1 in Hi. lia.
Qed.

(** ** One entry of [findStyles] *)

Lemma preparation_tagged p es :
  Forall (isPreparationOf p) es -> Forall (fun e => ev_provider e = Some p) es.
Proof.
  intros H. eapply Forall_impl; [exact H|].
  intros e [->|(a & n & v & ->)]; done.
Qed.

Lemma preparation_no_transform p q es :
  Forall (isPreparationOf p) es -> transformsOf q es = 0.
Proof.
  intros H. apply count_events_zero. eapply Forall_impl; [exact H|].
  intros e [->|(a & n & v & ->)]; done.
Qed.

Lemma tagged_transformsOf p q es :
  Forall (fun e => ev_provider e = Some p) es -> q ≠ p -> transformsOf q es = 0.
Proof.
  intros H Hne. apply count_events_zero. eapply Forall_impl; [exact H|].
  intros [] He; simpl in *; try done.
  injection He as ->. by rewrite bool_decide_eq_false.
Qed.

Lemma tagged_no_schedule p es :
  Forall (fun e => ev_provider e = Some p) es ->
  schedules es = 0 /\ validations es = 0 /\ forall i, schedulesOf i es = 0.
Proof.
  intros H. repeat split; [| |intros i]; apply count_events_zero;
    (eapply Forall_impl; [exact H|]); by intros [].
Qed.

Lemma transformCall_tagged w p st :
  Forall (fun e => ev_provider e = Some p) (transformCall w p st).
Proof. unfold transformCall. destruct (transformFn w); repeat constructor. Qed.

Lemma transformCall_count w p st : transformsOf p (transformCall w p st) <= 1.
Proof.
  unfold transformCall, transformsOf.
  destruct (transformFn w); simpl; [rewrite bool_decide_eq_true_2 by done|]; lia.
Qed.

Lemma getStyleForCustomStyle_obj this p w o :
  obj (snd (getStyleForCustomStyle this p w)) o = obj w o.
Proof. unfold getStyleForCustomStyle. by destruct (getStyle (obj w p)). Qed.

Lemma getStyleForCustomStyle_frame this p w :
  frame [] w (snd (getStyleForCustomStyle this p w)).
Proof.
  unfold getStyleForCustomStyle.
  destruct (getStyle (obj w p)); simpl; by constructor.
Qed.

Lemma getStyleForCustomStyle_trace this p w :
  exists es,
    trace (snd (getStyleForCustomStyle this p w)) = trace w ++ es /\
    Forall (isPreparationOf p) es.
Proof.
  unfold getStyleForCustomStyle. destruct (getStyle (obj w p)); simpl.
  - exists [EvGetStyle p]. split; [done|]. repeat constructor.
  - exists []. by rewrite app_nil_r.
Qed.

Lemma processStyle_processed this p w :
  processedByShadyCSS (obj w p) = true -> processStyle this p w = w.
Proof. unfold processStyle. by intros ->. Qed.


Lemma markProcessed_frame p w :
  frame [p] w (setObj p (markProcessed (obj w p)) w).
Proof.
  constructor; try done.
  - intros o. rewrite obj_setObj. by case_decide; subst.
  - intros o. rewrite obj_setObj. by case_decide; subst.
  - intros o. rewrite obj_setObj. by case_decide; subst.
  - intros o. rewrite obj_setObj. by case_decide; subst.
  - intros o Ho. rewrite obj_setObj. case_decide; subst; [|done].
    exfalso. apply Ho. by apply list_elem_of_singleton.
  - intros Hu o. rewrite obj_setObj. case_decide; subst; apply Hu.
Qed.

(** The entry as the loop body leaves it, step by step. *)
Lemma processStyle_unfold this p w :
  processedByShadyCSS (obj w p) = false ->
  processStyle this p w =
  let w1 := snd (getStyleForCustomStyle this p w) in
  match fst (getStyleForCustomStyle this p w) with
  | None => w1
  | Some st =>
      let w2 := setObj p (markProcessed (obj w1 p)) w1 in
      let w3 :=
        match appliedElement (obj w2 st) with
        | Some a => copyAttributes p st a w2
        | None => w2
        end in
      match transformFn w3 with
      | Some tf => emit (EvTransform p tf (default st (appliedElement (obj w2 st)))) w3
      | None => w3
      end
  end.
Proof.
  intros Hp. unfold processStyle. rewrite Hp.
  by destruct (getStyleForCustomStyle this p w).
Qed.

Lemma emit_frame e w : frame [] w (emit e w).
Proof. by constructor. Qed.

Lemma processStyle_frame this p w : frame [p] w (processStyle this p w).
Proof.
  destruct (processedByShadyCSS (obj w p)) eqn:Hp.
  { rewrite processStyle_processed by done. apply frame_refl. }
  rewrite processStyle_unfold by done. simpl.
  pose proof (getStyleForCustomStyle_frame this p w) as F1.
  destruct (fst (getStyleForCustomStyle this p w)) as [st|].
  2: { eapply frame_weaken; [|exact F1]. set_solver. }
  set (w1 := snd (getStyleForCustomStyle this p w)) in *.
  pose proof (markProcessed_frame p w1) as F2.
  set (w2 := setObj p (markProcessed (obj w1 p)) w1) in *.
  pose proof (frame_trans _ _ _ _ _ F1 F2) as F12. simpl in F12.
  assert (F3 : frame [p] w
                 match appliedElement (obj w2 st) with
                 | Some a => copyAttributes p st a w2
                 | None => w2
                 end).
  { destruct (appliedElement (obj w2 st)) as [a|]; [|done].
    pose proof (frame_trans _ _ _ _ _ F12
                  (copyAttributes_from_frame
                     (length (attributes (obj w2 st))) 0 p st a w2)) as F.
    by rewrite app_nil_r in F. }
  destruct (transformFn _); [|done].
  pose proof (frame_trans _ _ _ _ _ F3 (emit_frame (EvTransform p n
                (default st (appliedElement (obj w2 st)))) _)) as F.
  by rewrite app_nil_r in F.
Qed.

(** What processing does to an entry that resolves to the style [st]. *)
Lemma processStyle_resolved this p st w :
  processedByShadyCSS (obj w p) = false ->
  fst (getStyleForCustomStyle this p w) = Some st ->
  let w' := processStyle this p w in
  processedByShadyCSS (obj w' p) = true /\
  (exists pre,
     trace w' = trace w ++ pre ++ transformCall w p st /\
     Forall (isPreparationOf p) pre) /\
  (forall a, appliedElement (obj w st) = Some a ->
     uniqueNames (attributes (obj w st)) ->
     forall name value, (name, value) ∈ attributes (obj w st) ->
       get_attr name (attributes (obj w' a)) = Some value).
Proof.
  intros Hp Hst. simpl. rewrite processStyle_unfold by done. rewrite Hst. simpl.
  pose proof (getStyleForCustomStyle_frame this p w) as F1.
  destruct (getStyleForCustomStyle_trace this p w) as (es1 & Ht1 & Hes1).
  set (w1 := snd (getStyleForCustomStyle this p w)) in *.
  pose proof (markProcessed_frame p w1) as F2.
  set (w2 := setObj p (markProcessed (obj w1 p)) w1) in *.
  assert (Hobj1 : forall o, obj w1 o = obj w o)
    by (intros; apply getStyleForCustomStyle_obj).
  assert (Hattr2 : forall o, attributes (obj w2 o) = attributes (obj w o)).
  { intros o. unfold w2. rewrite obj_setObj. case_decide; subst; simpl; by rewrite Hobj1. }
  assert (Happ2 : forall o, appliedElement (obj w2 o) = appliedElement (obj w o)).
  { intros o. rewrite (fr_applied _ _ _ F2). by rewrite Hobj1. }
  assert (Hproc2 : processedByShadyCSS (obj w2 p) = true).
  { unfold w2. by rewrite obj_setObj, decide_True. }
  assert (Htf2 : transformFn w2 = transformFn w).
  { rewrite (fr_transformFn _ _ _ F2). apply (fr_transformFn _ _ _ F1). }
  assert (Ht2 : trace w2 = trace w ++ es1) by done.
  rewrite Happ2.
  set (w3 := match appliedElement (obj w st) with
             | Some a => copyAttributes p st a w2
             | None => w2
             end).
  assert (F3 : frame [] w2 w3).
  { unfold w3. destruct (appliedElement (obj w st));
      [apply copyAttributes_from_frame | apply frame_refl]. }
  assert (Ht3 : exists es, trace w3 = trace w2 ++ es /\ Forall (isPreparationOf p) es).
  { unfold w3. destruct (appliedElement (obj w st)) as [a|].
    - destruct (copyAttributes_from_trace (length (attributes (obj w2 st))) 0 p st a w2)
        as (es & Hes & Hall).
      exists es. split; [done|]. eapply Forall_impl; [exact Hall|].
      intros e (n & v & ->). right. by exists a, n, v.
    - exists []. by rewrite app_nil_r. }
  destruct Ht3 as (es3 & Ht3 & Hes3).
  assert (Htf3 : transformFn w3 = transformFn w).
  { by rewrite (fr_transformFn _ _ _ F3). }
  assert (Hcopy : forall a, appliedElement (obj w st) = Some a ->
            uniqueNames (attributes (obj w st)) ->
            forall name value, (name, value) ∈ attributes (obj w st) ->
              get_attr name (attributes (obj w3 a)) = Some value).
  { intros a Ha Hu name value Hin. unfold w3. rewrite Ha.
    destruct (copyAttributes_from_copies
                (length (attributes (obj w2 st))) 0 p st a w2) as (_ & Hc & _).
    { by rewrite Hattr2. } { lia. }
    apply list_elem_of_lookup_1 in Hin as [j Hj].
    apply (Hc j); [lia|]. by rewrite Hattr2. }
  rewrite Htf3. unfold transformCall.
  destruct (transformFn w) as [tf|]; simpl.
  - split; [by apply (fr_processed _ _ _ F3)|]. split; [|done].
    exists (es1 ++ es3). split.
    + rewrite Ht3, Ht2. by rewrite <- !app_assoc.
    + by apply Forall_app.
  - split; [by apply (fr_processed _ _ _ F3)|]. split; [|done].
    exists (es1 ++ es3). split.
    + rewrite Ht3, Ht2. by rewrite app_nil_r, <- !app_assoc.
    + by apply Forall_app.
Qed.

Lemma processStyle_trace this p w :
  exists es,
    trace (processStyle this p w) = trace w ++ es /\
    Forall (fun e => ev_provider e = Some p) es /\
    transformsOf p es <= 1 /\
    (processedByShadyCSS (obj (processStyle this p w) p) = false ->
     transformsOf p es = 0).
Proof.
  destruct (processedByShadyCSS (obj w p)) eqn:Hp.
  { rewrite processStyle_processed by done. exists [].
    rewrite app_nil_r. repeat split; try done. unfold transformsOf. simpl. lia. }
  destruct (fst (getStyleForCustomStyle this p w)) as [st|] eqn:Hst.
  - destruct (processStyle_resolved this p st w Hp Hst) as (Hdone & (pre & Ht & Hpre) & _).
    exists (pre ++ transformCall w p st). split; [done|]. split; [|split].
    + apply Forall_app. split; [by apply preparation_tagged | apply transformCall_tagged].
    + rewrite transformsOf_app, (preparation_no_transform p p pre) by done.
      apply transformCall_count.
    + intros Hno. congruence.
  - rewrite processStyle_unfold by done. rewrite Hst. simpl.
    destruct (getStyleForCustomStyle_trace this p w) as (es & Ht & Hes).
    exists es. split; [done|]. split; [by apply preparation_tagged|].
    rewrite (preparation_no_transform p p es) by done. split; [lia|done].
Qed.

(** ** At most one transform per provider *)

Lemma transformOnce_refl w : transformOnce w w.
Proof. intros p. by left. Qed.

Lemma transformOnce_trans w1 w2 w3 :
  transformOnce w1 w2 -> transformOnce w2 w3 -> transformOnce w1 w3.
Proof.
  intros H12 H23 p. destruct (H12 p) as [[Hp Ht]|(Hp & Hp' & Ht)];
    destruct (H23 p) as [[Hq Hu]|(Hq & Hq' & Hu)].
  - left. split; congruence.
  - right. repeat split; [congruence | done | lia].
  - right. repeat split; [done | congruence | lia].
  - congruence.
Qed.

Lemma transformOnce_same w w' :
  (forall o, processedByShadyCSS (obj w' o) = processedByShadyCSS (obj w o)) ->
  (forall p, transformsOf p (trace w') = transformsOf p (trace w)) ->
  transformOnce w w'.
Proof. intros Hp Ht p. left. by split. Qed.

Lemma processStyle_transformOnce this p w : transformOnce w (processStyle this p w).
Proof.
  intros q. pose proof (processStyle_frame this p w) as F.
  destruct (processStyle_trace this p w) as (es & Ht & Htag & Hle & Hzero).
  rewrite Ht, transformsOf_app.
  destruct (decide (q = p)) as [->|Hne].
  - destruct (processedByShadyCSS (obj w p)) eqn:Hp.
    + left. rewrite processStyle_processed in Ht |- * by done.
      split; [done|]. apply (f_equal (transformsOf p)) in Ht.
      rewrite transformsOf_app in Ht. lia.
    + destruct (processedByShadyCSS (obj (processStyle this p w) p)) eqn:Hp'.
      * right. repeat split; try done. lia.
      * left. split; [done|]. rewrite Hzero by done. lia.
  - left. split.
    + apply (fr_unprocessed _ _ _ F). by intros ->%list_elem_of_singleton.
    + rewrite (tagged_transformsOf p q es) by done. lia.
Qed.

(** ** The outer loop *)

Lemma processStyles_frame this l w : frame l w (processStyles this l w).
Proof.
  revert w. induction l as [|p l IH]; intros w; simpl.
  - apply frame_refl.
  - change (p :: l) with ([p] ++ l).
    eapply frame_trans; [apply processStyle_frame | apply IH].
Qed.

Lemma processStyles_transformOnce this l w : transformOnce w (processStyles this l w).
Proof.
  revert w. induction l as [|p l IH]; intros w; simpl.
  - apply transformOnce_refl.
  - eapply transformOnce_trans; [apply processStyle_transformOnce | apply IH].
Qed.

Lemma processStyles_trace this l w :
  exists es, trace (processStyles this l w) = trace w ++ es /\ blocks l es.
Proof.
  revert w. induction l as [|p l IH]; intros w; simpl.
  - exists []. split; [by rewrite app_nil_r | constructor].
  - destruct (processStyle_trace this p w) as (b & Hb & Htag & _).
    destruct (IH (processStyle this p w)) as (es & Hes & Hbl).
    exists (b ++ es). split.
    + rewrite Hes, Hb. by rewrite <- app_assoc.
    + by constructor.
Qed.

(** The instance's array does not change under the loop, so the loop
    visits the entries from position [i] on, each once, in their order. *)
Lemma findStyles_from_fold fuel i this w :
  findStyles_from fuel i this w =
  processStyles this (take fuel (drop i (customStyles (registry w this)))) w.
Proof.
  revert i w. induction fuel as [|fuel IH]; intros i w; simpl; [done|].
  destruct (customStyles (registry w this) !! i) as [c|] eqn:Hi.
  - rewrite (drop_S _ _ _ Hi). simpl. rewrite IH.
    by rewrite (frame_registry _ _ _ this (processStyle_frame this c w)).
  - by rewrite drop_ge by (by apply lookup_ge_None_1).
Qed.

Lemma findStyles_fold this w :
  findStyles this w = processStyles this (customStyles (registry w this)) w.
Proof.
  unfold findStyles. rewrite findStyles_from_fold, drop_0. by rewrite firstn_all.
Qed.

(** The loop ends because its test fails, not for lack of fuel. *)
Lemma findStyles_from_fuel fuel i this w :
  length (customStyles (registry w this)) <= i + fuel ->
  findStyles_from (S fuel) i this w = findStyles_from fuel i this w.
Proof.
  intros Hlen. rewrite !findStyles_from_fold. f_equal.
  rewrite !take_ge; [done | |]; rewrite length_drop; lia.
Qed.

Lemma findStyles_from_enough fuel extra i this w :
  length (customStyles (registry w this)) <= i + fuel ->
  findStyles_from (fuel + extra) i this w = findStyles_from fuel i this w.
Proof.
  intros Hlen. induction extra as [|extra IH].
  - by rewrite Nat.add_0_r.
  - rewrite Nat.add_succ_r, findStyles_from_fuel by lia. exact IH.
Qed.

Lemma findStyles_frame this w :
  frame (customStyles (registry w this)) w (findStyles this w).
Proof. rewrite findStyles_fold. apply processStyles_frame. Qed.

Lemma findStyles_transformOnce this w : transformOnce w (findStyles this w).
Proof. rewrite findStyles_fold. apply processStyles_transformOnce. Qed.

Lemma findStyles_trace this w :
  exists es,
    trace (findStyles this w) = trace w ++ es /\
    blocks (customStyles (registry w this)) es.
Proof. rewrite findStyles_fold. apply processStyles_trace. Qed.


Lemma blocks_no_schedule l es :
  blocks l es ->
  schedules es = 0 /\ validations es = 0 /\ forall i, schedulesOf i es = 0.
Proof.
  induction 1 as [|p l b es Hb _ (IH1 & IH2 & IH3)]; [done|].
  destruct (tagged_no_schedule p b Hb) as (H1 & H2 & H3).
  rewrite schedules_app, validations_app. repeat split; [lia | lia |].
  intros i. rewrite schedulesOf_app, H3, IH3. lia.
Qed.


(** ** [enqueueDocumentValidation] *)

Lemma enqueueDocumentValidation_skip this w :
  enqueued (registry w this) = true \/ validateFn w = None ->
  enqueueDocumentValidation this w = w.
Proof.
  unfold enqueueDocumentValidation. intros [->| ->]; [done|].
  by destruct (enqueued (registry w this)).
Qed.

(** The one call that schedules: the flag is set, the validator goes to
    one of the two schedulers, and nothing else changes. *)
Lemma enqueueDocumentValidation_schedules this w vf :
  enqueued (registry w this) = false ->
  validateFn w = Some vf ->
  let w' := enqueueDocumentValidation this w in
  heap w' = heap w /\
  (forall j, registry w' j =
     if decide (this = j) then mkRegistry (customStyles (registry w this)) true
     else registry w j) /\
  trace w' = trace w ++ [scheduleEvent w this vf] /\
  pending w' = S (pending w) /\
  transformFn w' = transformFn w /\
  validateFn w' = validateFn w /\
  whenReady w' = whenReady w.
Proof.
  intros He Hv. unfold enqueueDocumentValidation. rewrite He, Hv.
  unfold scheduleEvent, callWhenReady, promiseThen, resolveFn, pending.
  assert (Hreg : forall (m : gmap nat Registry) (r : Registry) j,
            default newRegistry (<[this:=r]> m !! j) =
            if decide (this = j) then r else default newRegistry (m !! j)).
  { intros m r j. case_decide; subst;
      [by rewrite lookup_insert_eq | by rewrite lookup_insert_ne]. }
  unfold registry in *.
  destruct w as [h ins rp wr tf vf' rs ls iq mq tr]. simpl in *.
  destruct wr; simpl.
  { repeat split; try done; try apply Hreg. rewrite length_app. simpl. lia. }
  destruct rp as [[[|] rs']|]; simpl.
  - repeat split; try done; try apply Hreg. rewrite length_app. simpl. lia.
  - repeat split; try done; try apply Hreg. rewrite length_app. simpl. lia.
  - destruct (isComplete rs); simpl.
    + repeat split; try done; try apply Hreg. rewrite !length_app. simpl. lia.
    + repeat split; try done; try apply Hreg.
Qed.

Lemma enqueueDocumentValidation_heap this w :
  heap (enqueueDocumentValidation this w) = heap w.
Proof.
  destruct (enqueued (registry w this)) eqn:He.
  { by rewrite enqueueDocumentValidation_skip by auto. }
  destruct (validateFn w) as [vf|] eqn:Hv.
  - by destruct (enqueueDocumentValidation_schedules this w vf He Hv) as (H & _).
  - by rewrite enqueueDocumentValidation_skip by auto.
Qed.

Lemma enqueueDocumentValidation_obj this w o :
  obj (enqueueDocumentValidation this w) o = obj w o.
Proof. unfold obj. by rewrite enqueueDocumentValidation_heap. Qed.

Lemma enqueueDocumentValidation_customStyles this w j :
  customStyles (registry (enqueueDocumentValidation this w) j) =
  customStyles (registry w j).
Proof.
  destruct (enqueued (registry w this)) eqn:He.
  { by rewrite enqueueDocumentValidation_skip by auto. }
  destruct (validateFn w) as [vf|] eqn:Hv.
  - destruct (enqueueDocumentValidation_schedules this w vf He Hv) as (_ & H & _).
    rewrite H. by case_decide; subst.
  - by rewrite enqueueDocumentValidation_skip by auto.
Qed.

Lemma enqueueDocumentValidation_callbacks this w :
  transformFn (enqueueDocumentValidation this w) = transformFn w /\
  validateFn (enqueueDocumentValidation this w) = validateFn w /\
  whenReady (enqueueDocumentValidation this w) = whenReady w.
Proof.
  destruct (enqueued (registry w this)) eqn:He.
  { by rewrite enqueueDocumentValidation_skip by auto. }
  destruct (validateFn w) as [vf|] eqn:Hv.
  - destruct (enqueueDocumentValidation_schedules this w vf He Hv)
      as (_ & _ & _ & _ & ? & ? & ?).
    repeat split; congruence.
  - by rewrite enqueueDocumentValidation_skip by auto.
Qed.

Lemma scheduleEvent_counts w this vf i :
  schedules [scheduleEvent w this vf] = 1 /\
  validations [scheduleEvent w this vf] = 0 /\
  schedulesOf i [scheduleEvent w this vf] = (if decide (this = i) then 1 else 0) /\
  (forall p, transformsOf p [scheduleEvent w this vf] = 0).
Proof.
  unfold scheduleEvent, schedules, validations, schedulesOf, transformsOf.
  destruct (whenReady w); simpl; repeat split; try done;
    case_decide; subst;
      by rewrite ?bool_decide_eq_true_2, ?bool_decide_eq_false_2 by done.
Qed.

Lemma enqueueDocumentValidation_trace this w :
  exists es,
    trace (enqueueDocumentValidation this w) = trace w ++ es /\
    (forall p, transformsOf p es = 0) /\ validations es = 0.
Proof.
  destruct (enqueued (registry w this)) eqn:He.
  { rewrite enqueueDocumentValidation_skip by auto. exists []. by rewrite app_nil_r. }
  destruct (validateFn w) as [vf|] eqn:Hv.
  - destruct (enqueueDocumentValidation_schedules this w vf He Hv) as (_ & _ & H & _).
    exists [scheduleEvent w this vf]. split; [done|].
    destruct (scheduleEvent_counts w this vf 0) as (_ & ? & _ & ?). by split.
  - rewrite enqueueDocumentValidation_skip by auto. exists []. by rewrite app_nil_r.
Qed.

Lemma scheduleOnce_refl w : scheduleOnce w w.
Proof. intros i. by left. Qed.

Lemma scheduleOnce_trans w1 w2 w3 :
  scheduleOnce w1 w2 -> scheduleOnce w2 w3 -> scheduleOnce w1 w3.
Proof.
  intros H12 H23 i. destruct (H12 i) as [[Hp Ht]|(Hp & Hp' & Ht)];
    destruct (H23 i) as [[Hq Hu]|(Hq & Hq' & Hu)].
  - left. split; congruence.
  - right. repeat split; [congruence | done | lia].
  - right. repeat split; [done | congruence | lia].
  - congruence.
Qed.

Lemma scheduleOnce_same w w' :
  (forall i, enqueued (registry w' i) = enqueued (registry w i)) ->
  (forall i, schedulesOf i (trace w') = schedulesOf i (trace w)) ->
  scheduleOnce w w'.
Proof. intros Hp Ht p. left. by split. Qed.

Lemma enqueueDocumentValidation_scheduleOnce this w :
  scheduleOnce w (enqueueDocumentValidation this w).
Proof.
  destruct (enqueued (registry w this)) eqn:He.
  { rewrite enqueueDocumentValidation_skip by auto. apply scheduleOnce_refl. }
  destruct (validateFn w) as [vf|] eqn:Hv.
  2: { rewrite enqueueDocumentValidation_skip by auto. apply scheduleOnce_refl. }
  destruct (enqueueDocumentValidation_schedules this w vf He Hv)
    as (_ & Hreg & Ht & _).
  intros i. rewrite Hreg, Ht, schedulesOf_app.
  destruct (scheduleEvent_counts w this vf i) as (_ & _ & -> & _).
  case_decide; subst.
  - right. simpl. repeat split; [done | lia].
  - left. split; [done | lia].
Qed.

Lemma accounted_refl w : accounted w w.
Proof. unfold accounted. lia. Qed.

Lemma accounted_trans w1 w2 w3 : accounted w1 w2 -> accounted w2 w3 -> accounted w1 w3.
Proof. unfold accounted. lia. Qed.

Lemma accounted_same w w' es :
  pending w' = pending w -> trace w' = trace w ++ es ->
  schedules es = 0 -> validations es = 0 ->
  accounted w w'.
Proof.
  unfold accounted. intros -> -> Hs Hv. rewrite schedules_app, validations_app. lia.
Qed.

Lemma enqueueDocumentValidation_accounted this w :
  accounted w (enqueueDocumentValidation this w).
Proof.
  destruct (enqueued (registry w this)) eqn:He.
  { rewrite enqueueDocumentValidation_skip by auto. apply accounted_refl. }
  destruct (validateFn w) as [vf|] eqn:Hv.
  2: { rewrite enqueueDocumentValidation_skip by auto. apply accounted_refl. }
  destruct (enqueueDocumentValidation_schedules this w vf He Hv)
    as (_ & _ & Ht & Hp & _).
  unfold accounted. rewrite Hp, Ht, schedules_app, validations_app.
  destruct (scheduleEvent_counts w this vf 0) as (-> & -> & _). lia.
Qed.

(** ** [addCustomStyle] *)

Lemma addCustomStyle_seen this style w :
  seenByShadyCSS (obj w style) = true -> addCustomStyle this style w = w.
Proof. unfold addCustomStyle. by intros ->. Qed.

Lemma addCustomStyle_fresh this style w :
  seenByShadyCSS (obj w style) = false ->
  addCustomStyle this style w =
  enqueueDocumentValidation this (markAndPush this style w).
Proof. unfold addCustomStyle. by intros ->. Qed.

Lemma markAndPush_obj this style w o :
  obj (markAndPush this style w) o =
  if decide (style = o) then markSeen (obj w style) else obj w o.
Proof. unfold markAndPush. apply obj_setObj. Qed.

Lemma markAndPush_registry this style w j :
  registry (markAndPush this style w) j =
  if decide (this = j)
  then mkRegistry (customStyles (registry w this) ++ [style]) (enqueued (registry w this))
  else registry w j.
Proof. unfold markAndPush. by rewrite registry_setRegistry. Qed.

Lemma markAndPush_enqueued this style w j :
  enqueued (registry (markAndPush this style w) j) = enqueued (registry w j).
Proof. rewrite markAndPush_registry. by case_decide; subst. Qed.

(** ** Effects of the operations *)

Lemma effect_refl w : effect w w.
Proof.
  constructor; try done;
    first [apply transformOnce_refl | apply scheduleOnce_refl | apply accounted_refl].
Qed.

Lemma effect_trans w1 w2 w3 : effect w1 w2 -> effect w2 w3 -> effect w1 w3.
Proof.
  intros [] []. constructor; eauto.
  - by eapply transformOnce_trans.
  - by eapply scheduleOnce_trans.
  - by eapply accounted_trans.
Qed.

(** An operation that neither touches the markers nor calls anything but
    [getStyle] and [setAttribute]. *)
Lemma effect_quiet w w' :
  (forall o, seenByShadyCSS (obj w' o) = seenByShadyCSS (obj w o)) ->
  (forall o, processedByShadyCSS (obj w' o) = processedByShadyCSS (obj w o)) ->
  ((forall o, uniqueNames (attributes (obj w o))) ->
   forall o, uniqueNames (attributes (obj w' o))) ->
  (forall i, enqueued (registry w' i) = enqueued (registry w i)) ->
  pending w' = pending w ->
  trace w' = trace w ->
  effect w w'.
Proof.
  intros Hs Hp Hn He Hpe Ht. constructor; try done.
  - intros o. by rewrite Hs.
  - apply transformOnce_same; [done | by rewrite Ht].
  - apply scheduleOnce_same; [done | by rewrite Ht].
  - apply (accounted_same _ _ []); [done | by rewrite app_nil_r | done | done].
Qed.

Lemma setObj_effect o x w :
  seenByShadyCSS x = seenByShadyCSS (obj w o) ->
  processedByShadyCSS x = processedByShadyCSS (obj w o) ->
  (uniqueNames (attributes (obj w o)) -> uniqueNames (attributes x)) ->
  effect w (setObj o x w).
Proof.
  intros Hs Hp Hn. apply effect_quiet; try done.
  - intros o'. rewrite obj_setObj. by case_decide; subst.
  - intros o'. rewrite obj_setObj. by case_decide; subst.
  - intros Hu o'. rewrite obj_setObj. case_decide; subst; [by apply Hn | apply Hu].
Qed.

Lemma frame_effect ps l w w' es :
  frame ps w w' -> trace w' = trace w ++ es -> blocks l es ->
  transformOnce w w' -> effect w w'.
Proof.
  intros F Ht Hbl Hto. destruct (blocks_no_schedule _ _ Hbl) as (Hs & Hv & Hso).
  constructor; try done.
  - intros o. by rewrite (fr_seen _ _ _ F).
  - by apply (fr_names _ _ _ F).
  - apply scheduleOnce_same.
    + intros i. by rewrite (frame_registry _ _ _ i F).
    + intros i. rewrite Ht, schedulesOf_app, Hso. lia.
  - eapply accounted_same; [by eapply frame_pending | done | done | done].
Qed.

Lemma findStyles_effect this w : effect w (findStyles this w).
Proof.
  destruct (findStyles_trace this w) as (es & Ht & Hbl).
  eapply frame_effect;
    [apply findStyles_frame | done | done | apply findStyles_transformOnce].
Qed.

Lemma getStyleForCustomStyle_effect this p w :
  effect w (snd (getStyleForCustomStyle this p w)).
Proof.
  destruct (getStyleForCustomStyle_trace this p w) as (es & Ht & Hes).
  pose proof (getStyleForCustomStyle_frame this p w) as F.
  eapply (frame_effect _ [p] _ _ (es ++ []));
    [exact F | by rewrite app_nil_r | |].
  - constructor; [by apply preparation_tagged | constructor].
  - apply transformOnce_same.
    + intros o. by rewrite getStyleForCustomStyle_obj.
    + intros q. rewrite Ht, transformsOf_app.
      rewrite (preparation_no_transform p q es) by done. lia.
Qed.

Lemma enqueueDocumentValidation_effect this w :
  effect w (enqueueDocumentValidation this w).
Proof.
  constructor.
  - intros o. by rewrite enqueueDocumentValidation_obj.
  - intros Hu o. rewrite enqueueDocumentValidation_obj. apply Hu.
  - destruct (enqueueDocumentValidation_trace this w) as (es & Ht & Hes & _).
    apply transformOnce_same.
    + intros o. by rewrite enqueueDocumentValidation_obj.
    + intros p. rewrite Ht, transformsOf_app, Hes. lia.
  - apply enqueueDocumentValidation_scheduleOnce.
  - apply enqueueDocumentValidation_accounted.
Qed.

Lemma markAndPush_effect this style w : effect w (markAndPush this style w).
Proof.
  constructor.
  - intros o. rewrite markAndPush_obj. by case_decide; subst.
  - intros Hu o. rewrite markAndPush_obj. case_decide; subst; apply Hu.
  - apply transformOnce_same; [|done].
    intros o. rewrite markAndPush_obj. by case_decide; subst.
  - apply scheduleOnce_same; [|done]. intros i. apply markAndPush_enqueued.
  - by apply (accounted_same _ _ []); [| rewrite app_nil_r | |].
Qed.

Lemma addCustomStyle_effect this style w : effect w (addCustomStyle this style w).
Proof.
  destruct (seenByShadyCSS (obj w style)) eqn:Hs.
  - rewrite addCustomStyle_seen by done. apply effect_refl.
  - rewrite addCustomStyle_fresh by done.
    eapply effect_trans; [apply markAndPush_effect | apply enqueueDocumentValidation_effect].
Qed.

(** ** The host environment *)

Lemma resolveFn_pending w : pending (resolveFn w) = pending w.
Proof.
  unfold resolveFn, pending.
  destruct (readyPromise w) as [[[|] rs]|] eqn:Hp; simpl; rewrite ?Hp; simpl;
    rewrite ?length_app; lia.
Qed.

Lemma readyListener_pending w : pending (readyListener w) = pending w.
Proof.
  unfold readyListener. destruct (isComplete (readyState w)); [|done].
  apply resolveFn_pending.
Qed.

Lemma readyListener_rest w :
  heap (readyListener w) = heap w /\ instances (readyListener w) = instances w /\
  trace (readyListener w) = trace w /\
  transformFn (readyListener w) = transformFn w /\
  validateFn (readyListener w) = validateFn w /\
  whenReady (readyListener w) = whenReady w.
Proof.
  unfold readyListener, resolveFn.
  destruct (isComplete (readyState w)); [|done].
  by destruct (readyPromise w) as [[[|] rs]|].
Qed.

Lemma readyListeners_rest n w :
  let w' := Nat.iter n readyListener w in
  heap w' = heap w /\ instances w' = instances w /\ trace w' = trace w /\
  transformFn w' = transformFn w /\ validateFn w' = validateFn w /\
  whenReady w' = whenReady w /\ pending w' = pending w.
Proof.
  induction n as [|n IH]; simpl; [done|].
  destruct IH as (H1 & H2 & H3 & H4 & H5 & H6 & H7).
  destruct (readyListener_rest (Nat.iter n readyListener w))
    as (G1 & G2 & G3 & G4 & G5 & G6).
  rewrite readyListener_pending. repeat split; congruence.
Qed.

Lemma readyStateChange_rest rs w :
  let w' := readyStateChange rs w in
  heap w' = heap w /\ instances w' = instances w /\ trace w' = trace w /\
  transformFn w' = transformFn w /\ validateFn w' = validateFn w /\
  whenReady w' = whenReady w /\ pending w' = pending w.
Proof. unfold readyStateChange. apply (readyListeners_rest _ (with_readyState rs w)). Qed.

Lemma readyStateChange_effect rs w : effect w (readyStateChange rs w).
Proof.
  destruct (readyStateChange_rest rs w) as (H1 & H2 & H3 & _ & _ & _ & H7).
  apply effect_quiet; unfold obj, registry; try done; try (intros; by rewrite ?H1, ?H2).
Qed.

(** A scheduled validator runs. *)
Lemma validate_effect fn w w' :
  heap w' = heap w -> instances w' = instances w ->
  trace w' = trace w ++ [EvValidate fn] -> S (pending w') = pending w ->
  effect w w'.
Proof.
  intros Hh Hi Ht Hp.
  assert (Ho : forall o, obj w' o = obj w o) by (intros; unfold obj; by rewrite Hh).
  assert (Hr : forall i, registry w' i = registry w i)
    by (intros; unfold registry; by rewrite Hi).
  constructor.
  - intros o. by rewrite Ho.
  - intros Hu o. rewrite Ho. apply Hu.
  - apply transformOnce_same; [intros; by rewrite Ho|].
    intros p. rewrite Ht, transformsOf_app. unfold transformsOf at 2. simpl. lia.
  - apply scheduleOnce_same; [intros; by rewrite Hr|].
    intros p. rewrite Ht, schedulesOf_app. unfold schedulesOf at 2. simpl. lia.
  - unfold accounted. rewrite Ht, schedules_app, validations_app.
    unfold schedules at 3, validations at 2. simpl. lia.
Qed.

Lemma runMicrotask_effect w : effect w (runMicrotask w).
Proof.
  unfold runMicrotask. destruct (microtasks w) as [|fn q] eqn:Hq; [apply effect_refl|].
  apply (validate_effect fn); try done.
  unfold pending. simpl. rewrite Hq. simpl. lia.
Qed.

Lemma importsReady_effect w : effect w (importsReady w).
Proof.
  unfold importsReady. destruct (importsQueue w) as [|fn q] eqn:Hq; [apply effect_refl|].
  apply (validate_effect fn); try done.
  unfold pending. simpl. rewrite Hq. simpl. lia.
Qed.

Lemma construct_effect w : effect w (snd (construct w)).
Proof.
  apply effect_quiet; try done.
  intros i. by rewrite construct_registry.
Qed.

Lemma exec_effect op w : effect w (exec op w).
Proof.
  destruct op; simpl.
  - apply construct_effect.
  - apply enqueueDocumentValidation_effect.
  - apply addCustomStyle_effect.
  - apply getStyleForCustomStyle_effect.
  - apply findStyles_effect.
  - by apply effect_quiet.
  - by apply effect_quiet.
  - by apply setObj_effect.
  - by apply setObj_effect.
  - apply setObj_effect; try done. simpl. apply set_attr_unique.
  - apply readyStateChange_effect.
  - apply runMicrotask_effect.
  - apply importsReady_effect.
Qed.

Lemma run_snoc ops op w : run (ops ++ [op]) w = exec op (run ops w).
Proof. unfold run. by rewrite fold_left_app. Qed.

Lemma run_app ops1 ops2 w : run (ops1 ++ ops2) w = run ops2 (run ops1 w).
Proof. unfold run. by rewrite fold_left_app. Qed.

Lemma run_effect ops w : effect w (run ops w).
Proof.
  revert w. induction ops as [|op ops IH]; intros w; simpl.
  - apply effect_refl.
  - eapply effect_trans; [apply exec_effect | apply IH].
Qed.

(** ** The arrays only grow *)

Lemma exec_customStyles op w i :
  customStyles (registry (exec op w) i) = customStyles (registry w i) ++ pushed op w i.
Proof.
  destruct op; cbn [exec pushed]; rewrite ?app_nil_r; try done.
  - by rewrite construct_registry.
  - apply enqueueDocumentValidation_customStyles.
  - destruct (seenByShadyCSS (obj w style)) eqn:Hs.
    + rewrite addCustomStyle_seen by done.
      by rewrite andb_false_r, app_nil_r.
    + rewrite addCustomStyle_fresh by done.
      rewrite enqueueDocumentValidation_customStyles, markAndPush_registry.
      rewrite andb_true_r. case_decide; subst.
      * by rewrite bool_decide_eq_true_2.
      * by rewrite bool_decide_eq_false_2, app_nil_r.
  - by rewrite (frame_registry _ _ _ i (getStyleForCustomStyle_frame this customStyle w)).
  - by rewrite (frame_registry _ _ _ i (findStyles_frame this w)).
  - destruct (readyStateChange_rest rs w) as (_ & H & _). unfold registry. by rewrite H.
  - unfold runMicrotask. by destruct (microtasks w).
  - unfold importsReady. by destruct (importsQueue w).
Qed.

Lemma pushed_unseen op w i p :
  p ∈ pushed op w i ->
  seenByShadyCSS (obj w p) = false /\ op = OpAddCustomStyle i p.
Proof.
  destruct op; simpl; try (by intros ?%elem_of_nil).
  destruct (bool_decide (this = i)) eqn:Hi; simpl; [|by intros ?%elem_of_nil].
  apply bool_decide_eq_true_1 in Hi as ->.
  destruct (seenByShadyCSS (obj w style)) eqn:Hs; simpl; [by intros ?%elem_of_nil|].
  by intros ->%list_elem_of_singleton.
Qed.

Lemma pushed_short op w i : length (pushed op w i) <= 1.
Proof.
  destruct op; simpl; try lia.
  destruct (bool_decide (this = i) && negb (seenByShadyCSS (obj w style))); simpl; lia.
Qed.

Lemma run_customStyles ops w i :
  customStyles (registry w i) `prefix_of` customStyles (registry (run ops w) i).
Proof.
  revert w. induction ops as [|op ops IH]; intros w; simpl; [done|].
  etrans; [|apply IH]. rewrite exec_customStyles. by apply prefix_app_r.
Qed.

Lemma addCustomStyle_marks this style w :
  seenByShadyCSS (obj (addCustomStyle this style w) style) = true.
Proof.
  destruct (seenByShadyCSS (obj w style)) eqn:Hs.
  - by rewrite addCustomStyle_seen.
  - rewrite addCustomStyle_fresh by done.
    by rewrite enqueueDocumentValidation_obj, markAndPush_obj, decide_True.
Qed.

(** ** Invariants of reachable worlds *)

Lemma init_invariant hasWhenReady rs : invariant (init hasWhenReady rs).
Proof.
  constructor; unfold registry, obj; simpl; intros; rewrite ?lookup_empty in *; simpl in *.
  - by apply elem_of_nil in H.
  - constructor.
  - by apply elem_of_nil in H.
  - constructor.
Qed.

Lemma exec_invariant op w : invariant w -> invariant (exec op w).
Proof.
  intros [Hseen Hnodup Howner Hnames].
  pose proof (exec_effect op w) as E.
  assert (Hold : forall i p, p ∈ customStyles (registry (exec op w) i) ->
            p ∈ customStyles (registry w i) \/
            (seenByShadyCSS (obj w p) = false /\ op = OpAddCustomStyle i p)).
  { intros i p. rewrite exec_customStyles. intros [Hp|Hp]%elem_of_app; [by left|].
    right. by apply pushed_unseen. }
  constructor.
  - intros i p [Hp|[Hp ->]]%Hold.
    + apply (ef_seen _ _ E). by eapply Hseen.
    + apply addCustomStyle_marks.
  - intros i. rewrite exec_customStyles. apply NoDup_app. split; [done|]. split.
    + intros p Hp [Hu _]%pushed_unseen. apply Hseen in Hp. congruence.
    + pose proof (pushed_short op w i).
      destruct (pushed op w i) as [|x [|y l]]; simpl in *;
        [constructor | apply NoDup_singleton | lia].
  - intros i j p [Hi|[Hi Hopi]]%Hold [Hj|[Hj Hopj]]%Hold.
    + by eapply Howner.
    + apply Hseen in Hi. congruence.
    + apply Hseen in Hj. congruence.
    + congruence.
  - by apply (ef_names _ _ E).
Qed.

Lemma reachable_invariant w : reachable w -> invariant w.
Proof.
  induction 1 as [wr rs | op w _ IH]; [apply init_invariant | by apply exec_invariant].
Qed.

Lemma reachable_run ops w : reachable w -> reachable (run ops w).
Proof.
  revert w. induction ops as [|op ops IH]; intros w Hw; simpl; [done|].
  apply IH. by constructor.
Qed.

Lemma occurrences_notin x l : x ∉ l -> occurrences x l = 0.
Proof.
  induction l as [|y l IH]; simpl; [done|].
  intros [Hne Hl]%not_elem_of_cons. rewrite bool_decide_eq_false_2 by done.
  by rewrite IH.
Qed.

Lemma occurrences_NoDup x l : NoDup l -> x ∈ l -> occurrences x l = 1.
Proof.
  induction 1 as [|y l Hy Hl IH]; simpl; [by intros ?%elem_of_nil|].
  intros [->|Hx]%elem_of_cons.
  - rewrite bool_decide_eq_true_2 by done. by rewrite occurrences_notin.
  - rewrite bool_decide_eq_false_2 by (intros ->; done). by rewrite IH.
Qed.

(** ** Scheduling the validator *)

Lemma first_call w this vf c :
  validateFn w = Some vf ->
  enqueued (registry w this) = false ->
  reachesEnqueue w c ->
  let w1 := exec (callOp this c) w in
  enqueued (registry w1 this) = true /\
  trace w1 = trace w ++ [scheduleEvent w this vf] /\
  pending w1 = S (pending w).
Proof.
  intros Hv He Hc. destruct c as [|style]; simpl in *.
  - destruct (enqueueDocumentValidation_schedules this w vf He Hv)
      as (_ & Hr & Ht & Hp & _).
    rewrite Hr, decide_True by done. by repeat split.
  - rewrite addCustomStyle_fresh by done.
    assert (He' : enqueued (registry (markAndPush this style w) this) = false)
      by (by rewrite markAndPush_enqueued).
    destruct (enqueueDocumentValidation_schedules this _ vf He' Hv)
      as (_ & Hr & Ht & Hp & _).
    rewrite Hr, decide_True by done. by repeat split.
Qed.

Lemma quiet_step w this op :
  enqueued (registry w this) = true ->
  quietFor this op = true ->
  enqueued (registry (exec op w) this) = true /\
  schedules (trace (exec op w)) = schedules (trace w).
Proof.
  intros He Hq. destruct op; simpl in Hq; try done; simpl.
  - apply bool_decide_eq_true_1 in Hq as ->.
    by rewrite enqueueDocumentValidation_skip by auto.
  - apply bool_decide_eq_true_1 in Hq as ->.
    destruct (seenByShadyCSS (obj w style)) eqn:Hs.
    + by rewrite addCustomStyle_seen.
    + rewrite addCustomStyle_fresh by done.
      rewrite enqueueDocumentValidation_skip
        by (left; by rewrite markAndPush_enqueued).
      by rewrite markAndPush_enqueued.
  - destruct (readyStateChange_rest rs w) as (_ & Hi & Ht & _).
    unfold registry. by rewrite Hi, Ht.
  - unfold runMicrotask. destruct (microtasks w); [done|]. simpl.
    split; [done|]. rewrite schedules_app. unfold schedules at 2. simpl. lia.
  - unfold importsReady. destruct (importsQueue w); [done|]. simpl.
    split; [done|]. rewrite schedules_app. unfold schedules at 2. simpl. lia.
Qed.

Lemma quiet_run w this ops :
  enqueued (registry w this) = true ->
  Forall (fun op => quietFor this op = true) ops ->
  enqueued (registry (run ops w) this) = true /\
  schedules (trace (run ops w)) = schedules (trace w).
Proof.
  intros He Hq. revert w He. induction Hq as [|op ops Hop _ IH]; intros w He; simpl.
  - done.
  - destruct (quiet_step w this op He Hop) as (He' & Hs).
    destruct (IH _ He') as (He'' & Hs'). split; [done | congruence].
Qed.

(** ** Entries that do not resolve, and entries that do *)





(** ** Which hook is called, and for whom *)



Lemma processStyles_skips this l p w :
  processedByShadyCSS (obj w p) = true ->
  exists es,
    trace (processStyles this l w) = trace w ++ es /\
    Forall (fun e => ev_provider e ≠ Some p) es.
Proof.
  revert w. induction l as [|q l IH]; intros w Hp; simpl.
  - exists []. by rewrite app_nil_r.
  - destruct (decide (q = p)) as [->|Hne].
    + rewrite processStyle_processed by done. by apply IH.
    + destruct (processStyle_trace this q w) as (b & Hb & Htag & _).
      destruct (IH (processStyle this q w)) as (es & Hes & Hall).
      { by apply (fr_processed _ _ _ (processStyle_frame this q w)). }
      exists (b ++ es). split; [rewrite Hes, Hb; by rewrite <- app_assoc|].
      apply Forall_app. split; [|done].
      eapply Forall_impl; [exact Htag|]. intros e He. congruence.
Qed.

(** * Properties stated by the specification *)

(** C1: with a validate callback configured and the flag of instance [this]
    not set, the first request that reaches [enqueueDocumentValidation]
    (a direct call, or [addCustomStyle] with a style not seen before) sets
    the flag and makes exactly one scheduling call.  Whatever requests to
    [this] and host events follow, in any order, the flag stays set, a
    further [enqueueDocumentValidation] changes nothing, no second
    scheduling call is made, and the validator runs at most once more than
    was already pending. *)
Theorem enqueue_schedules_once w this vf c ops :
  validateFn w = Some vf ->
  enqueued (registry w this) = false ->
  reachesEnqueue w c ->
  Forall (fun op => quietFor this op = true) ops ->
  let w1 := exec (callOp this c) w in
  let w2 := run ops w1 in
  (enqueued (registry w1 this) = true /\
   trace w1 = trace w ++ [scheduleEvent w this vf] /\
   pending w1 = S (pending w)) /\
  (enqueued (registry w2 this) = true /\
   enqueueDocumentValidation this w2 = w2 /\
   schedules (trace w2) = S (schedules (trace w))) /\
  validations (trace w2) + pending w2 = S (validations (trace w) + pending w).
Proof.
  intros Hv He Hc Hq. simpl.
  destruct (first_call w this vf c Hv He Hc) as (He1 & Ht1 & Hp1).
  destruct (quiet_run _ this ops He1 Hq) as (He2 & Hs2).
  assert (Hs1 : schedules (trace (exec (callOp this c) w)) = S (schedules (trace w))).
  { rewrite Ht1, schedules_app.
    destruct (scheduleEvent_counts w this vf 0) as (-> & _). lia. }
  split; [done|]. split.
  - split; [done|]. split; [|congruence].
    apply enqueueDocumentValidation_skip. by left.
  - pose proof (ef_accounted _ _ (run_effect (callOp this c :: ops) w)) as Ha.
    unfold accounted in Ha. simpl in Ha. lia.
Qed.

(** C2: in a reachable world, [addCustomStyle] with a provider that does
    not carry the seen marker marks it and appends it to the array; from
    then on, whatever else happens, the array holds the provider exactly
    once and [addCustomStyle] with the same object changes nothing. *)
Theorem addCustomStyle_once w this style ops :
  reachable w ->
  seenByShadyCSS (obj w style) = false ->
  let w1 := addCustomStyle this style w in
  let w2 := run ops w1 in
  seenByShadyCSS (obj w1 style) = true /\
  customStyles (registry w1 this) = customStyles (registry w this) ++ [style] /\
  occurrences style (customStyles (registry w2 this)) = 1 /\
  addCustomStyle this style w2 = w2.
Proof.
  intros Hw Hs. simpl.
  assert (Hcs : customStyles (registry (addCustomStyle this style w) this) =
                customStyles (registry w this) ++ [style]).
  { pose proof (exec_customStyles (OpAddCustomStyle this style) w this) as H.
    simpl in H. by rewrite Hs, bool_decide_eq_true_2 in H. }
  assert (Hseen2 : seenByShadyCSS (obj (run ops (addCustomStyle this style w)) style) = true).
  { apply (ef_seen _ _ (run_effect ops _)), addCustomStyle_marks. }
  split; [apply addCustomStyle_marks|]. split; [done|]. split.
  - apply occurrences_NoDup.
    + apply reachable_invariant, reachable_run.
      by apply (reach_step (OpAddCustomStyle this style)).
    + eapply elem_of_prefix; [|apply run_customStyles].
      rewrite Hcs. apply elem_of_app. right. by apply list_elem_of_singleton.
  - by apply addCustomStyle_seen.
Qed.


(** C7: no operation clears the flag of an instance once it is set, and
    over any sequence of operations an instance makes at most one more
    scheduling call, none when its flag is set already; an instance, which
    starts with the flag unset, makes at most one in its whole life. *)
Theorem enqueued_never_reset w i ops :
  let w' := run ops w in
  (enqueued (registry w i) = true -> enqueued (registry w' i) = true) /\
  schedulesOf i (trace w') <=
    schedulesOf i (trace w) + (if enqueued (registry w i) then 0 else 1) /\
  (forall hasWhenReady rs,
     schedulesOf i (trace (run ops (init hasWhenReady rs))) <= 1).
Proof.
  simpl.
  assert (H : forall w0,
            (enqueued (registry w0 i) = true -> enqueued (registry (run ops w0) i) = true) /\
            schedulesOf i (trace (run ops w0)) <=
              schedulesOf i (trace w0) + (if enqueued (registry w0 i) then 0 else 1)).
  { intros w0. pose proof (ef_scheduleOnce _ _ (run_effect ops w0) i) as Hso.
    destruct Hso as [[He Ht]|(He & He' & Ht)].
    - split; [congruence|]. rewrite Ht. lia.
    - split; [done|]. rewrite He, Ht. lia. }
  split; [apply H|]. split; [apply H|].
  intros hasWhenReady rs. destruct (H (init hasWhenReady rs)) as (_ & Hle).
  change (schedulesOf i (trace (init hasWhenReady rs))) with 0 in Hle.
  change (enqueued (registry (init hasWhenReady rs) i)) with false in Hle.
  exact Hle.
Qed.



(** C6: [getStyleForCustomStyle] calls the provider's [getStyle] method
    and returns what it yields when the provider has one, and returns the
    provider itself otherwise; the heap, the instances and the module
    variables are as before. *)
Theorem getStyleForCustomStyle_result this p w :
  (forall g, getStyle (obj w p) = Some g ->
     getStyleForCustomStyle this p w = (g, emit (EvGetStyle p) w)) /\
  (getStyle (obj w p) = None ->
     getStyleForCustomStyle this p w = (Some p, w)) /\
  let w' := snd (getStyleForCustomStyle this p w) in
  heap w' = heap w /\ instances w' = instances w /\
  readyPromise w' = readyPromise w /\ whenReady w' = whenReady w /\
  transformFn w' = transformFn w /\ validateFn w' = validateFn w /\
  pending w' = pending w.
Proof.
  unfold getStyleForCustomStyle. split; [|split].
  - by intros g ->.
  - by intros ->.
  - by destruct (getStyle (obj w p)).
Qed.



(** C10: the markers sit on the provider object.  In a reachable world a
    provider without the seen marker that is added to instance [i] goes
    into the array of [i]; adding the same object to another instance [j]
    then changes nothing and the array of [j] does not hold it.  And a
    provider that carries the processed marker after the [findStyles] of
    [i] is skipped from then on by the [findStyles] of every instance: the
    loop body does nothing for it and the pass makes no call for it. *)
Theorem markers_shared_between_instances w i j style :
  reachable w ->
  i ≠ j ->
  seenByShadyCSS (obj w style) = false ->
  let w1 := addCustomStyle i style w in
  (customStyles (registry w1 i) = customStyles (registry w i) ++ [style] /\
   addCustomStyle j style w1 = w1 /\
   style ∉ customStyles (registry w1 j)) /\
  (forall p k ops,
     let w2 := findStyles i w in
     let w3 := run ops w2 in
     processedByShadyCSS (obj w2 p) = true ->
     processStyle k p w3 = w3 /\
     exists es,
       trace (findStyles k w3) = trace w3 ++ es /\
       Forall (fun e => ev_provider e ≠ Some p) es).
Proof.
  intros Hw Hij Hs. simpl.
  assert (Hcs : customStyles (registry (addCustomStyle i style w) i) =
                customStyles (registry w i) ++ [style]).
  { pose proof (exec_customStyles (OpAddCustomStyle i style) w i) as H.
    simpl in H. by rewrite Hs, bool_decide_eq_true_2 in H. }
  split.
  - split; [done|]. split.
    + apply addCustomStyle_seen, addCustomStyle_marks.
    + intros Hin.
      assert (Hinv : invariant (addCustomStyle i style w)).
      { apply reachable_invariant. by apply (reach_step (OpAddCustomStyle i style)). }
      apply Hij. apply (inv_owner _ Hinv i j style); [|done].
      rewrite Hcs. apply elem_of_app. right. by apply list_elem_of_singleton.
  - intros p k ops Hp.
    assert (Hp3 : processedByShadyCSS (obj (run ops (findStyles i w)) p) = true).
    { destruct (ef_transformOnce _ _ (run_effect ops (findStyles i w)) p)
        as [[Hq _]|(Hq & _)]; congruence. }
    split; [by apply processStyle_processed|].
    rewrite findStyles_fold. by apply processStyles_skips.
Qed.

(** * The properties on sample worlds *)

Lemma enqueue_schedules_once_witness :
  let ops := [OpEnqueue 0; OpAddCustomStyle 0 2; OpReadyStateChange complete;
              OpMicrotask; OpEnqueue 0; OpMicrotask] in
  let w2 := run ops (exec (callOp 0 (CallAddCustomStyle 1)) page) in
  validateFn page = Some 9 /\
  enqueued (registry page 0) = false /\
  reachesEnqueue page (CallAddCustomStyle 1) /\
  Forall (fun op => quietFor 0 op = true) ops /\
  schedules (trace w2) = 1 /\
  validations (trace w2) + pending w2 = 1.
Proof.
  intros ops w2.
  assert (Hv : validateFn page = Some 9) by reflexivity.
  assert (He : enqueued (registry page 0) = false) by reflexivity.
  assert (Hc : reachesEnqueue page (CallAddCustomStyle 1)) by reflexivity.
  assert (Hq : Forall (fun op => quietFor 0 op = true) ops)
    by (repeat constructor).
  destruct (enqueue_schedules_once page 0 9 (CallAddCustomStyle 1) ops Hv He Hc Hq)
    as (_ & (_ & _ & Hs) & Hval).
  split; [exact Hv|]. split; [exact He|]. split; [exact Hc|]. split; [exact Hq|].
  split; [exact Hs | exact Hval].
Defined.

Lemma addCustomStyle_once_witness :
  let ops := [OpAddCustomStyle 0 1; OpFindStyles 0; OpAddCustomStyle 0 1] in
  reachable page /\
  seenByShadyCSS (obj page 1) = false /\
  customStyles (registry (run ops (addCustomStyle 0 1 page)) 0) = [1] /\
  occurrences 1 (customStyles (registry (run ops (addCustomStyle 0 1 page)) 0)) = 1.
Proof.
  intros ops.
  assert (Hr : reachable page) by apply reachable_run, reach_init.
  assert (Hs : seenByShadyCSS (obj page 1) = false) by reflexivity.
  destruct (addCustomStyle_once page 0 1 ops Hr Hs) as (_ & _ & Hocc & _).
  split; [exact Hr|]. split; [exact Hs|]. split; [reflexivity | exact Hocc].
Defined.




Lemma markers_shared_between_instances_witness :
  let w1 := addCustomStyle 0 5 styled_page in
  reachable styled_page /\
  (0 ≠ 1) /\
  seenByShadyCSS (obj styled_page 5) = false /\
  customStyles (registry w1 0) = [1; 3; 5] /\
  addCustomStyle 1 5 w1 = w1 /\
  (5 ∉ customStyles (registry w1 1)) /\
  processStyle 1 1 (findStyles 0 styled_page) = findStyles 0 styled_page.
Proof.
  intros w1.
  assert (Hr : reachable styled_page).
  { unfold styled_page, page. apply reachable_run, reachable_run, reach_init. }
  assert (Hne : 0 ≠ 1) by discriminate.
  assert (Hs : seenByShadyCSS (obj styled_page 5) = false) by reflexivity.
  destruct (markers_shared_between_instances styled_page 0 1 5 Hr Hne Hs)
    as ((Hcs & Hnoop & Hnotin) & Hskip).
  destruct (Hskip 1 1 [] eq_refl) as (Hbody & _).
  split; [exact Hr|]. split; [exact Hne|]. split; [exact Hs|].
  split; [exact Hcs|]. split; [exact Hnoop|]. split; [exact Hnotin | exact Hbody].
Defined.

(** The attribute example of the specification, through a whole
    [findStyles] call: the counterpart [2] ends with both attributes, the
    hook is called on the counterpart, and a second call does nothing
    for the style. *)
Example findStyles_propagates_attributes :
  let w' := findStyles 0 styled_page in
  attributes (obj w' 2) = [("id"%string, "a"%string); ("class"%string, "b"%string)] /\
  transformsOf 1 (trace w') = 1 /\
  emitted w' (findStyles 0 w') = [EvGetStyle 3].
Proof. by vm_compute. Qed.

(** Module-level callbacks at work: instance [1] replaces the hook, and
    the pass of instance [0] calls the new one. *)
Example other_instance_replaces_hook :
  emitted (set_transformCallback 1 (Some 8) styled_page)
          (findStyles 0 (set_transformCallback 1 (Some 8) styled_page)) =
    [EvSetAttribute 1 2 "id" "a"; EvSetAttribute 1 2 "class" "b";
     EvTransform 1 8 2; EvGetStyle 3].
Proof. by vm_compute. Qed.

(** The validator waits for the document: scheduled while the page loads,
    it runs once the state is 'complete' and the reaction job is taken. *)
Example validator_waits_for_complete :
  let w1 := enqueueDocumentValidation 0 page in
  validations (trace (run [OpReadyStateChange interactive; OpMicrotask] w1)) = 0 /\
  trace (run [OpReadyStateChange interactive; OpReadyStateChange complete;
              OpMicrotask; OpMicrotask] w1) = [EvThen 0 9; EvValidate 9].
Proof. by vm_compute. Qed.

(** * Further properties of the module *)

(** ** The wait for readiness *)

Lemma scheduledFns_app t1 t2 :
  scheduledFns (t1 ++ t2) = scheduledFns t1 ++ scheduledFns t2.
Proof. apply omap_app. Qed.

Lemma validatedFns_app t1 t2 :
  validatedFns (t1 ++ t2) = validatedFns t1 ++ validatedFns t2.
Proof. apply omap_app. Qed.

Lemma tagged_no_fns p es :
  Forall (fun e => ev_provider e = Some p) es ->
  scheduledFns es = [] /\ validatedFns es = [].
Proof.
  induction 1 as [|e es He _ [IH1 IH2]]; [done|].
  change (e :: es) with ([e] ++ es).
  rewrite scheduledFns_app, validatedFns_app, IH1, IH2. by destruct e.
Qed.

Lemma blocks_no_fns l es :
  blocks l es -> scheduledFns es = [] /\ validatedFns es = [].
Proof.
  induction 1 as [|p l b es Hb _ [IH1 IH2]]; [done|].
  destruct (tagged_no_fns p b Hb) as [H1 H2].
  by rewrite scheduledFns_app, validatedFns_app, H1, H2, IH1, IH2.
Qed.

(** An operation that leaves the wait and the queues alone and makes
    neither a scheduling call nor a validator run. *)
Lemma readiness_same w w' es :
  readyPromise w' = readyPromise w -> whenReady w' = whenReady w ->
  readyState w' = readyState w -> listeners w' = listeners w ->
  importsQueue w' = importsQueue w -> microtasks w' = microtasks w ->
  trace w' = trace w ++ es -> scheduledFns es = [] -> validatedFns es = [] ->
  readiness w -> readiness w'.
Proof.
  intros Hp Hw Hs Hl Hi Hm Ht Hsf Hvf [R1 R2 R3 R4 R5 R6 R7].
  constructor; unfold waiting, reactionsOf in *;
    rewrite ?Hp, ?Hw, ?Hs, ?Hl, ?Hi, ?Hm, ?Ht; try done.
  by rewrite scheduledFns_app, validatedFns_app, Hsf, Hvf, !app_nil_r.
Qed.

Lemma frame_readiness ps l w w' es :
  frame ps w w' -> trace w' = trace w ++ es -> blocks l es ->
  readiness w -> readiness w'.
Proof.
  intros F Ht Hbl. destruct (blocks_no_fns _ _ Hbl) as [H1 H2].
  apply (readiness_same w w' es); try done; apply F.
Qed.

Lemma init_readiness hasWhenReady rs : readiness (init hasWhenReady rs).
Proof. constructor; simpl; try done. lia. Qed.

(** The finishing steps for a world written out field by field. *)
Ltac readiness_fields R7 :=
  constructor; unfold waiting, reactionsOf; simpl;
  try done; try lia;
  try (intros ? [= <-]; simpl; intros; done);
  try (rewrite ?scheduledFns_app, ?validatedFns_app; simpl;
       rewrite <- R7, ?app_nil_r, <- ?app_assoc; done).

Lemma enqueueDocumentValidation_readiness this w :
  readiness w -> readiness (enqueueDocumentValidation this w).
Proof.
  intros R. destruct (enqueued (registry w this)) eqn:He.
  { by rewrite enqueueDocumentValidation_skip by auto. }
  destruct (validateFn w) as [vf|] eqn:Hv.
  2: { by rewrite enqueueDocumentValidation_skip by auto. }
  unfold enqueueDocumentValidation. rewrite He, Hv. clear He.
  destruct R as [R1 R2 R3 R4 R5 R6 R7].
  unfold callWhenReady, promiseThen, resolveFn, waiting, reactionsOf in *.
  generalize (customStyles (registry w this)). intros cs.
  destruct w as [h ins rp wr tf vf' rs ls iq mq tr]. simpl in *.
  destruct wr.
  - destruct R1 as (-> & -> & ->); [done|]. simpl. readiness_fields R7.
  - rewrite (R2 eq_refl) in *. simpl in *.
    destruct rp as [[[|] rs']|].
    + pose proof (R4 _ eq_refl eq_refl) as Hr. simpl in Hr. subst rs'.
      simpl. readiness_fields R7.
    + destruct (R5 _ eq_refl eq_refl) as (-> & Hc & ->).
      simpl. readiness_fields R7.
    + destruct (R3 eq_refl) as (-> & ->).
      destruct (isComplete rs) eqn:Hc; simpl; rewrite ?Hc; simpl;
        readiness_fields R7.
Qed.

Lemma readyStateChange_readiness rs w :
  readiness w -> readiness (readyStateChange rs w).
Proof.
  intros [R1 R2 R3 R4 R5 R6 R7].
  unfold readyStateChange, readyListener, resolveFn, waiting, reactionsOf in *.
  destruct w as [h ins rp wr tf vf' rs0 ls iq mq tr]. simpl in *.
  destruct ls as [|[|ls]]; [| |lia]; simpl.
  - destruct rp as [[[|] rs']|]; try readiness_fields R7.
    destruct (R5 _ eq_refl eq_refl) as (? & _). done.
  - destruct wr; [by destruct R1 as (_ & ? & _)|].
    destruct (isComplete rs) eqn:Hc; simpl.
    + destruct rp as [[[|] rs']|]; simpl; readiness_fields R7.
    + destruct rp as [[[|] rs']|]; simpl; try readiness_fields R7.
      intros p [= <-] _. by destruct (R5 _ eq_refl eq_refl) as (_ & _ & ->).
Qed.

Lemma runMicrotask_readiness w : readiness w -> readiness (runMicrotask w).
Proof.
  intros [R1 R2 R3 R4 R5 R6 R7].
  unfold runMicrotask, waiting, reactionsOf in *.
  destruct w as [h ins rp wr tf vf' rs0 ls iq mq tr]. simpl in *.
  destruct mq as [|fn q]; [by constructor|]. simpl.
  destruct wr; [by destruct R1 as (_ & _ & ?)|].
  rewrite (R2 eq_refl) in *.
  destruct rp as [[[|] rs']|].
  - readiness_fields R7.
  - by destruct (R5 _ eq_refl eq_refl) as (_ & _ & ?).
  - by destruct (R3 eq_refl).
Qed.

Lemma importsReady_readiness w : readiness w -> readiness (importsReady w).
Proof.
  intros [R1 R2 R3 R4 R5 R6 R7].
  unfold importsReady, waiting, reactionsOf in *.
  destruct w as [h ins rp wr tf vf' rs0 ls iq mq tr]. simpl in *.
  destruct iq as [|fn q]; [by constructor|]. simpl.
  destruct wr; [|by specialize (R2 eq_refl)].
  destruct R1 as (-> & -> & ->); [done|].
  readiness_fields R7.
Qed.

Lemma exec_readiness op w : readiness w -> readiness (exec op w).
Proof.
  intros R. destruct op; simpl.
  - by apply (readiness_same w _ []); rewrite ?app_nil_r.
  - by apply enqueueDocumentValidation_readiness.
  - destruct (seenByShadyCSS (obj w style)) eqn:Hs.
    + by rewrite addCustomStyle_seen.
    + rewrite addCustomStyle_fresh by done.
      apply enqueueDocumentValidation_readiness.
      by apply (readiness_same w _ []); rewrite ?app_nil_r.
  - destruct (getStyleForCustomStyle_trace this customStyle w) as (es & Ht & Hes).
    apply (frame_readiness [] [customStyle] w _ (es ++ []));
      [apply getStyleForCustomStyle_frame | by rewrite app_nil_r | | done].
    constructor; [by apply preparation_tagged | constructor].
  - destruct (findStyles_trace this w) as (es & Ht & Hbl).
    by apply (frame_readiness _ (customStyles (registry w this)) w _ es
                (findStyles_frame this w)).
  - by apply (readiness_same w _ []); rewrite ?app_nil_r.
  - by apply (readiness_same w _ []); rewrite ?app_nil_r.
  - by apply (readiness_same w _ []); rewrite ?app_nil_r.
  - by apply (readiness_same w _ []); rewrite ?app_nil_r.
  - by apply (readiness_same w _ []); rewrite ?app_nil_r.
  - by apply readyStateChange_readiness.
  - by apply runMicrotask_readiness.
  - by apply importsReady_readiness.
Qed.

Lemma reachable_readiness w : reachable w -> readiness w.
Proof.
  induction 1 as [wr rs | op w _ IH]; [apply init_readiness | by apply exec_readiness].
Qed.

Lemma run_readiness ops w : readiness w -> readiness (run ops w).
Proof.
  revert w. induction ops as [|op ops IH]; intros w R; simpl; [done|].
  by apply IH, exec_readiness.
Qed.

(** The branch of [enqueueDocumentValidation] that waits for the
    document, case by case. *)
Lemma enqueueDocumentValidation_wait this w vf :
  enqueued (registry w this) = false ->
  validateFn w = Some vf ->
  whenReady w = false ->
  let w' := enqueueDocumentValidation this w in
  readyState w' = readyState w /\
  importsQueue w' = importsQueue w /\
  trace w' = trace w ++ [EvThen this vf] /\
  match readyPromise w with
  | Some p =>
      listeners w' = listeners w /\
      if resolved p
      then readyPromise w' = readyPromise w /\ microtasks w' = microtasks w ++ [vf]
      else readyPromise w' = Some (mkPromise false (reactions p ++ [vf])) /\
           microtasks w' = microtasks w
  | None =>
      if isComplete (readyState w)
      then readyPromise w' = Some (mkPromise true []) /\
           microtasks w' = microtasks w ++ [vf] /\ listeners w' = listeners w
      else readyPromise w' = Some (mkPromise false [vf]) /\
           microtasks w' = microtasks w /\ listeners w' = S (listeners w)
  end.
Proof.
  intros He Hv Hw. unfold enqueueDocumentValidation. rewrite He, Hv. clear He.
  unfold callWhenReady, promiseThen, resolveFn.
  generalize (customStyles (registry w this)). intros cs.
  destruct w as [h ins rp wr tf vf' rs ls iq mq tr]. simpl in *. subst wr.
  destruct rp as [[[|] rs']|]; simpl; [done | done |].
  destruct (isComplete rs) eqn:Hc; simpl; rewrite ?Hc; simpl; [|done].
  by rewrite app_nil_r.
Qed.

Lemma markAndPush_fields this style w :
  let w' := markAndPush this style w in
  readyPromise w' = readyPromise w /\ whenReady w' = whenReady w /\
  readyState w' = readyState w /\ listeners w' = listeners w /\
  importsQueue w' = importsQueue w /\ microtasks w' = microtasks w /\
  trace w' = trace w /\ validateFn w' = validateFn w.
Proof. done. Qed.

(** The operations that do not reach the readiness paths. *)
Lemma exec_untouched op w :
  touchesReadiness op = false ->
  let w' := exec op w in
  readyPromise w' = readyPromise w /\ whenReady w' = whenReady w /\
  readyState w' = readyState w /\ listeners w' = listeners w /\
  importsQueue w' = importsQueue w /\ microtasks w' = microtasks w /\
  exists es, trace w' = trace w ++ es /\ scheduledFns es = [] /\ validatedFns es = [].
Proof.
  intros Hop. destruct op; try discriminate Hop; simpl;
    try (repeat split; try done; exists []; by rewrite app_nil_r).
  - pose proof (getStyleForCustomStyle_frame this customStyle w) as F.
    destruct (getStyleForCustomStyle_trace this customStyle w) as (es & Ht & Hes).
    destruct (tagged_no_fns customStyle es (preparation_tagged _ _ Hes)) as [H1 H2].
    repeat split; try apply F. by exists es.
  - pose proof (findStyles_frame this w) as F.
    destruct (findStyles_trace this w) as (es & Ht & Hbl).
    destruct (blocks_no_fns _ _ Hbl) as [H1 H2].
    repeat split; try apply F. by exists es.
Qed.

Lemma readyListeners_noop n w :
  isComplete (readyState w) = false -> Nat.iter n readyListener w = w.
Proof.
  intros Hc. induction n as [|n IH]; simpl; [done|].
  rewrite IH. unfold readyListener. by rewrite Hc.
Qed.

Lemma unsettled_no_jobs w : readiness w -> settled w = false -> microtasks w = [].
Proof.
  intros R Hp. unfold settled in Hp.
  destruct (readyPromise w) as [p|] eqn:Hrp.
  - by destruct (rd_unsettled _ R p Hrp Hp) as (_ & _ & ?).
  - by destruct (rd_unbuilt _ R Hrp).
Qed.

Lemma exec_loadingPage op w :
  isCompletion op = false -> loadingPage w -> loadingPage (exec op w).
Proof.
  intros Hop [R Hw Hs Hp Hv].
  assert (R' : readiness (exec op w)) by (by apply exec_readiness).
  destruct (touchesReadiness op) eqn:Ht.
  2: { destruct (exec_untouched op w Ht) as (H1 & H2 & H3 & _ & _ & _ & es & H7 & _ & H9).
       constructor; unfold settled; rewrite ?H1, ?H2, ?H3, ?H7; try done.
       by rewrite validatedFns_app, Hv, H9. }
  assert (Henq : forall this w0, loadingPage w0 ->
            loadingPage (enqueueDocumentValidation this w0)).
  { clear. intros this w0 [R Hw Hs Hp Hv].
    pose proof (enqueueDocumentValidation_readiness this w0 R) as R'.
    destruct (enqueued (registry w0 this)) eqn:He.
    { rewrite enqueueDocumentValidation_skip by auto. by constructor. }
    destruct (validateFn w0) as [vf|] eqn:Hvf.
    2: { rewrite enqueueDocumentValidation_skip by auto. by constructor. }
    destruct (enqueueDocumentValidation_wait this w0 vf He Hvf Hw) as (H1 & H2 & H3 & H4).
    destruct (enqueueDocumentValidation_callbacks this w0) as (_ & _ & H5).
    unfold settled in *.
    destruct (readyPromise w0) as [[r rs']|]; simpl in *.
    - subst r. destruct H4 as (_ & H4 & _).
      constructor; unfold settled; rewrite ?H1, ?H3, ?H4, ?H5; try done.
      by rewrite validatedFns_app, Hv.
    - rewrite Hs in H4. destruct H4 as (H4 & _).
      constructor; unfold settled; rewrite ?H1, ?H3, ?H4, ?H5; try done.
      by rewrite validatedFns_app, Hv. }
  destruct op; try discriminate Ht; simpl in *.
  - by apply Henq.
  - destruct (seenByShadyCSS (obj w style)) eqn:Hseen.
    + rewrite addCustomStyle_seen by done. by constructor.
    + rewrite addCustomStyle_fresh by done. apply Henq.
      constructor; try done.
      by apply (readiness_same w _ []); rewrite ?app_nil_r.
  - unfold readyStateChange in *.
    rewrite readyListeners_noop in * by done. by constructor.
  - unfold runMicrotask. rewrite (unsettled_no_jobs w R Hp). by constructor.
  - unfold importsReady. rewrite (rd_document _ R Hw). by constructor.
Qed.

Lemma run_loadingPage ops w :
  Forall (fun op => isCompletion op = false) ops ->
  loadingPage w -> loadingPage (run ops w).
Proof.
  intros Hops. revert w. induction Hops as [|op ops Hop _ IH]; intros w L; simpl.
  - done.
  - by apply IH, exec_loadingPage.
Qed.

Lemma validatedFns_runs l :
  validatedFns (map EvValidate l) = l /\ scheduledFns (map EvValidate l) = [].
Proof.
  induction l as [|fn l [IH1 IH2]]; [done|].
  change (map EvValidate (fn :: l)) with ([EvValidate fn] ++ map EvValidate l).
  by rewrite validatedFns_app, scheduledFns_app, IH1, IH2.
Qed.

Lemma readyStateChange_state rs w : readyState (readyStateChange rs w) = rs.
Proof.
  unfold readyStateChange. generalize (listeners w). intros n.
  induction n as [|n IH]; simpl; [done|].
  unfold readyListener at 1, resolveFn.
  destruct (isComplete _); [|done].
  by destruct (readyPromise _) as [[[|] rs']|].
Qed.

(** Taking the reaction jobs one after the other runs them in their order
    and touches nothing else. *)
Lemma drain_microtasks w :
  let w' := run (replicate (length (microtasks w)) OpMicrotask) w in
  trace w' = trace w ++ map EvValidate (microtasks w) /\
  microtasks w' = [] /\ readyPromise w' = readyPromise w /\
  importsQueue w' = importsQueue w.
Proof.
  simpl. remember (microtasks w) as l eqn:Hl. revert w Hl.
  induction l as [|fn l IH]; intros w Hl; simpl.
  - by rewrite app_nil_r.
  - unfold runMicrotask. rewrite <- Hl.
    destruct (IH (emit (EvValidate fn) (with_microtasks l w)) eq_refl)
      as (H1 & H2 & H3 & H4).
    rewrite H1, H2, H3, H4. simpl. by rewrite <- app_assoc.
Qed.

Lemma drain_imports w :
  let w' := run (replicate (length (importsQueue w)) OpImportsReady) w in
  trace w' = trace w ++ map EvValidate (importsQueue w) /\
  importsQueue w' = [] /\ readyPromise w' = readyPromise w /\
  microtasks w' = microtasks w.
Proof.
  simpl. remember (importsQueue w) as l eqn:Hl. revert w Hl.
  induction l as [|fn l IH]; intros w Hl; simpl.
  - by rewrite app_nil_r.
  - unfold importsReady. rewrite <- Hl.
    destruct (IH (emit (EvValidate fn) (with_importsQueue l w)) eq_refl)
      as (H1 & H2 & H3 & H4).
    rewrite H1, H2, H3, H4. simpl. by rewrite <- app_assoc.
Qed.

(** X1: on a page without HTML Imports whose document is not 'complete'
    at load and does not become 'complete', the validator never runs,
    whatever is registered, enqueued or processed on whichever instance:
    no reaction job is queued, and every function handed to
    [readyPromise.then] waits among the reactions, in the order of the
    calls. *)
Theorem no_validation_before_complete rs ops :
  isComplete rs = false ->
  Forall (fun op => isCompletion op = false) ops ->
  let w := run ops (init false rs) in
  validatedFns (trace w) = [] /\
  microtasks w = [] /\
  reactionsOf w = scheduledFns (trace w).
Proof.
  intros Hrs Hops. simpl.
  assert (L : loadingPage (run ops (init false rs))).
  { apply run_loadingPage; [done|]. constructor; try done. apply init_readiness. }
  destruct L as [R Hw Hs Hp Hv].
  pose proof (unsettled_no_jobs _ R Hp) as Hm.
  pose proof (rd_fifo _ R) as Hf. unfold waiting in Hf.
  rewrite Hv, Hm, (rd_document _ R Hw) in Hf. by repeat split.
Qed.

(** X2: on a reachable page without HTML Imports, once the document's
    state changes to 'complete' and as many reaction jobs are taken as
    functions were waiting, the waiting functions have run in the order in
    which they were scheduled, nothing waits any more, and so every
    scheduled validator has run exactly once. *)
Theorem validators_run_once_complete w :
  reachable w ->
  whenReady w = false ->
  let w' := run (OpReadyStateChange complete ::
                 replicate (length (waiting w)) OpMicrotask) w in
  validatedFns (trace w') = validatedFns (trace w) ++ waiting w /\
  scheduledFns (trace w') = scheduledFns (trace w) /\
  validatedFns (trace w') = scheduledFns (trace w') /\
  waiting w' = [].
Proof.
  intros Hw Hpath. simpl.
  pose proof (reachable_readiness w Hw) as R.
  pose proof (readyStateChange_readiness complete w R) as R1.
  destruct (readyStateChange_rest complete w) as (_ & _ & Ht & _ & _ & Hwr & _).
  set (w1 := readyStateChange complete w) in *.
  assert (Hwait : waiting w1 = waiting w).
  { pose proof (rd_fifo _ R) as F. pose proof (rd_fifo _ R1) as F1.
    rewrite Ht, <- F in F1. by apply app_inv_head in F1. }
  assert (Hre : reactionsOf w1 = []).
  { unfold reactionsOf. destruct (readyPromise w1) as [p|] eqn:Hp; [|done].
    destruct (resolved p) eqn:Hr; [by apply (rd_settled _ R1 p)|].
    destruct (rd_unsettled _ R1 p Hp Hr) as (_ & Hc & _).
    unfold w1 in Hc. by rewrite readyStateChange_state in Hc. }
  assert (Hiq : importsQueue w1 = []) by (apply (rd_document _ R1); congruence).
  assert (Hm : microtasks w1 = waiting w).
  { rewrite <- Hwait. unfold waiting. by rewrite Hiq, Hre, app_nil_r. }
  rewrite <- Hm.
  destruct (drain_microtasks w1) as (H1 & H2 & H3 & H4).
  set (w2 := run (replicate (length (microtasks w1)) OpMicrotask) w1) in *.
  destruct (validatedFns_runs (microtasks w1)) as [Hv Hs].
  assert (Hwait2 : waiting w2 = []).
  { unfold waiting, reactionsOf in *. by rewrite H2, H3, H4, Hiq, Hre. }
  assert (Hval : validatedFns (trace w2) = validatedFns (trace w) ++ microtasks w1).
  { by rewrite H1, validatedFns_app, Hv, Ht. }
  assert (Hsch : scheduledFns (trace w2) = scheduledFns (trace w)).
  { by rewrite H1, scheduledFns_app, Hs, app_nil_r, Ht. }
  split; [done|]. split; [done|]. split; [|done].
  rewrite Hval, Hsch, Hm. apply (rd_fifo _ R).
Qed.

(** X3: on a reachable page with HTML Imports the document's state is
    never consulted: no promise is built, no listener added, no reaction
    job queued, and a change of the document's state only records the
    state.  The validators handed to [whenReady] run in the order of the
    calls when the scheduler invokes what it holds, each exactly once. *)
Theorem imports_path_ignores_document w :
  reachable w ->
  whenReady w = true ->
  (readyPromise w = None /\ listeners w = 0 /\ microtasks w = []) /\
  (forall rs, readyStateChange rs w = with_readyState rs w) /\
  let w' := run (replicate (length (importsQueue w)) OpImportsReady) w in
  validatedFns (trace w') = validatedFns (trace w) ++ importsQueue w /\
  validatedFns (trace w') = scheduledFns (trace w') /\
  importsQueue w' = [].
Proof.
  intros Hw Hpath. pose proof (reachable_readiness w Hw) as R.
  destruct (rd_imports _ R Hpath) as (Hp & Hl & Hm).
  split; [done|]. split.
  { intros rs. unfold readyStateChange. by rewrite Hl. }
  simpl. destruct (drain_imports w) as (H1 & H2 & H3 & H4).
  destruct (validatedFns_runs (importsQueue w)) as [Hv Hs].
  pose proof (rd_fifo _ R) as F. unfold waiting, reactionsOf in F.
  rewrite Hp, Hm, !app_nil_r in F.
  rewrite H1, validatedFns_app, scheduledFns_app, Hv, Hs, app_nil_r.
  by repeat split.
Qed.

Lemma exec_trace op w : trace w `prefix_of` trace (exec op w).
Proof.
  destruct op; simpl; try done.
  - destruct (enqueueDocumentValidation_trace this w) as (es & -> & _).
    by apply prefix_app_r.
  - destruct (seenByShadyCSS (obj w style)) eqn:Hs.
    + by rewrite addCustomStyle_seen.
    + rewrite addCustomStyle_fresh by done.
      destruct (enqueueDocumentValidation_trace this (markAndPush this style w))
        as (es & -> & _).
      by apply prefix_app_r.
  - destruct (getStyleForCustomStyle_trace this customStyle w) as (es & -> & _).
    by apply prefix_app_r.
  - destruct (findStyles_trace this w) as (es & -> & _). by apply prefix_app_r.
  - by destruct (readyStateChange_rest rs w) as (_ & _ & -> & _).
  - unfold runMicrotask. destruct (microtasks w); [done|]. by apply prefix_app_r.
  - unfold importsReady. destruct (importsQueue w); [done|]. by apply prefix_app_r.
Qed.

Lemma run_trace ops w : trace w `prefix_of` trace (run ops w).
Proof.
  revert w. induction ops as [|op ops IH]; intros w; simpl; [done|].
  etrans; [apply exec_trace | apply IH].
Qed.

(** X4: in every reachable world the validator runs so far, followed by
    the functions still waiting (with the imports scheduler, as reaction
    jobs, as reactions of the promise), are exactly the functions of the
    scheduling calls, in the order of the calls: a validator runs only if
    it was scheduled, at most once, in scheduling order, and with the
    function that was configured when it was scheduled.  Whatever happens
    later, setting another [validateCallback] included, those functions
    keep their places: they come first, in the same order, among what has
    run and what waits. *)
Theorem validators_run_in_scheduling_order w ops :
  reachable w ->
  validatedFns (trace w) ++ waiting w = scheduledFns (trace w) /\
  (validatedFns (trace w) ++ waiting w) `prefix_of`
    (validatedFns (trace (run ops w)) ++ waiting (run ops w)).
Proof.
  intros Hw. pose proof (reachable_readiness w Hw) as R.
  pose proof (run_readiness ops w R) as R'.
  split; [apply (rd_fifo _ R)|].
  rewrite (rd_fifo _ R), (rd_fifo _ R').
  destruct (run_trace ops w) as [es ->].
  rewrite scheduledFns_app. by apply prefix_app_r.
Qed.

Lemma readyListener_kept w :
  (readyPromise w <> None -> readyPromise (readyListener w) <> None) /\
  (settled w = true -> settled (readyListener w) = true) /\
  listeners (readyListener w) = listeners w.
Proof.
  unfold readyListener, resolveFn, settled.
  destruct (isComplete (readyState w)); [|done].
  by destruct (readyPromise w) as [[[|] rs']|] eqn:Hp; simpl; rewrite ?Hp.
Qed.

Lemma readyListeners_kept n w :
  let w' := Nat.iter n readyListener w in
  (readyPromise w <> None -> readyPromise w' <> None) /\
  (settled w = true -> settled w' = true) /\
  listeners w' = listeners w.
Proof.
  induction n as [|n (IH1 & IH2 & IH3)]; simpl; [done|].
  destruct (readyListener_kept (Nat.iter n readyListener w)) as (H1 & H2 & H3).
  repeat split; [auto | auto | congruence].
Qed.

Lemma enqueueDocumentValidation_kept this w :
  readiness w ->
  let w' := enqueueDocumentValidation this w in
  (readyPromise w <> None -> readyPromise w' <> None) /\
  (settled w = true -> settled w' = true /\ listeners w' = listeners w).
Proof.
  intros R. simpl. destruct (enqueued (registry w this)) eqn:He.
  { by rewrite enqueueDocumentValidation_skip by auto. }
  destruct (validateFn w) as [vf|] eqn:Hv.
  2: { by rewrite enqueueDocumentValidation_skip by auto. }
  destruct (whenReady w) eqn:Hw.
  { destruct (rd_imports _ R Hw) as (Hp & _). unfold settled. by rewrite Hp. }
  destruct (enqueueDocumentValidation_wait this w vf He Hv Hw) as (_ & _ & _ & H).
  unfold settled. destruct (readyPromise w) as [[[|] rs']|]; simpl in *.
  - destruct H as (Hl & -> & _). by repeat split.
  - destruct H as (Hl & -> & _). by repeat split.
  - done.
Qed.

Lemma exec_promise_kept op w :
  readiness w ->
  let w' := exec op w in
  (readyPromise w <> None -> readyPromise w' <> None) /\
  (settled w = true -> settled w' = true /\ listeners w' = listeners w).
Proof.
  intros R. simpl. destruct (touchesReadiness op) eqn:Ht.
  2: { destruct (exec_untouched op w Ht) as (H1 & _ & _ & H4 & _).
       unfold settled. by rewrite H1, H4. }
  destruct op; try discriminate Ht; simpl.
  - by apply enqueueDocumentValidation_kept.
  - destruct (seenByShadyCSS (obj w style)) eqn:Hs.
    + by rewrite addCustomStyle_seen.
    + rewrite addCustomStyle_fresh by done.
      apply (enqueueDocumentValidation_kept this (markAndPush this style w)).
      by apply (readiness_same w _ []); rewrite ?app_nil_r.
  - unfold readyStateChange.
    destruct (readyListeners_kept (listeners w) (with_readyState rs w))
      as (H1 & H2 & H3).
    split; [exact H1|]. intros Hs. split; [by apply H2 | exact H3].
  - unfold runMicrotask, settled. by destruct (microtasks w).
  - unfold importsReady, settled. by destruct (importsQueue w).
Qed.

(** X5: the wait for the document is built once for the whole module: in
    a reachable world at most one 'readystatechange' listener has been
    added, however many instances ask and however often; the promise,
    once built, is never replaced by none; and once it is settled it
    stays settled and no further listener is added. *)
Theorem ready_wait_built_once w ops :
  reachable w ->
  let w' := run ops w in
  listeners w' <= 1 /\
  (readyPromise w <> None -> readyPromise w' <> None) /\
  (settled w = true -> settled w' = true /\ listeners w' = listeners w).
Proof.
  intros Hw. simpl. pose proof (reachable_readiness w Hw) as R.
  split; [apply (rd_listeners _ (run_readiness ops w R))|].
  clear Hw. revert w R. induction ops as [|op ops IH]; intros w R; simpl; [done|].
  destruct (exec_promise_kept op w R) as (H1 & H2).
  destruct (IH (exec op w) (exec_readiness op w R)) as (G1 & G2).
  split; [auto|]. intros Hs. destruct (H2 Hs) as (Hs' & Hl).
  destruct (G2 Hs') as (Hs'' & Hl'). split; [done | congruence].
Qed.

(** X6: on a reachable page without HTML Imports whose document is
    'complete', the first request of an instance queues the validator as a
    reaction job at once: the promise is settled, no listener is added,
    and the next job taken runs the validator if no other job waits. *)
Theorem complete_document_runs_next w this vf :
  reachable w ->
  whenReady w = false ->
  isComplete (readyState w) = true ->
  validateFn w = Some vf ->
  enqueued (registry w this) = false ->
  let w' := enqueueDocumentValidation this w in
  microtasks w' = microtasks w ++ [vf] /\
  listeners w' = listeners w /\
  settled w' = true /\
  (microtasks w = [] ->
   trace (runMicrotask w') = trace w ++ [EvThen this vf; EvValidate vf]).
Proof.
  intros Hw Hpath Hc Hv He. simpl.
  pose proof (reachable_readiness w Hw) as R.
  destruct (enqueueDocumentValidation_wait this w vf He Hv Hpath) as (_ & _ & Ht & H).
  assert (Hgoal : microtasks (enqueueDocumentValidation this w) = microtasks w ++ [vf] /\
                  listeners (enqueueDocumentValidation this w) = listeners w /\
                  settled (enqueueDocumentValidation this w) = true).
  { unfold settled. destruct (readyPromise w) as [[[|] rs']|] eqn:Hp; simpl in *.
    - destruct H as (Hl & -> & Hm). by repeat split.
    - destruct (rd_unsettled _ R _ Hp eq_refl) as (_ & Hc' & _). congruence.
    - rewrite Hc in H. destruct H as (-> & Hm & Hl). by repeat split. }
  destruct Hgoal as (Hm & Hl & Hs). repeat split; try done.
  intros Hq. unfold runMicrotask. rewrite Hm, Hq. simpl.
  rewrite Ht. by rewrite <- app_assoc.
Qed.

(** ** Registering without a validator, processing without a hook *)

(** X7: a style added while no validate callback is configured is marked
    and stored, but nothing is scheduled and the flag of the instance is
    as before; and when a callback is configured afterwards, adding the
    same object again, on any instance, is still a no-op, so that these
    styles by themselves never lead to a validation. *)
Theorem style_added_without_validator w this style :
  validateFn w = None ->
  seenByShadyCSS (obj w style) = false ->
  let w1 := addCustomStyle this style w in
  customStyles (registry w1 this) = customStyles (registry w this) ++ [style] /\
  enqueued (registry w1 this) = enqueued (registry w this) /\
  trace w1 = trace w /\
  waiting w1 = waiting w /\
  (forall i fn j,
     addCustomStyle j style (set_validateCallback i fn w1) =
     set_validateCallback i fn w1).
Proof.
  intros Hv Hs. simpl. rewrite addCustomStyle_fresh by done.
  rewrite enqueueDocumentValidation_skip by (by right).
  rewrite markAndPush_registry, decide_True by done. simpl.
  repeat split; try done.
  intros i fn j. apply addCustomStyle_seen.
  change (obj (set_validateCallback i fn (markAndPush this style w)) style)
    with (obj (markAndPush this style w) style).
  by rewrite markAndPush_obj, decide_True.
Qed.


(** ** A pass after a pass *)

Lemma emitAll_obj es w o : obj (emitAll es w) o = obj w o.
Proof.
  revert w. induction es as [|e es IH]; intros w; simpl; [done|]. by rewrite IH.
Qed.

Lemma emitAll_heap es w : heap (emitAll es w) = heap w.
Proof.
  revert w. induction es as [|e es IH]; intros w; simpl; [done|]. by rewrite IH.
Qed.

Lemma emitAll_trace es w : trace (emitAll es w) = trace w ++ es.
Proof.
  revert w. induction es as [|e es IH]; intros w; simpl.
  - by rewrite app_nil_r.
  - rewrite IH. simpl. by rewrite <- app_assoc.
Qed.




(** ** What a pass writes *)










(** ** Who gets processed *)

Lemma exec_processed op w p :
  processedByShadyCSS (obj (exec op w) p) = true ->
  processedByShadyCSS (obj w p) = true \/
  exists i, p ∈ customStyles (registry w i).
Proof.
  destruct op; simpl; try (by left).
  - rewrite enqueueDocumentValidation_obj. by left.
  - destruct (seenByShadyCSS (obj w style)) eqn:Hs.
    + rewrite addCustomStyle_seen by done. by left.
    + rewrite addCustomStyle_fresh by done.
      rewrite enqueueDocumentValidation_obj, markAndPush_obj.
      case_decide; subst; by left.
  - rewrite getStyleForCustomStyle_obj. by left.
  - destruct (decide (p ∈ customStyles (registry w this))) as [Hin|Hin].
    + right. by exists this.
    + rewrite (fr_unprocessed _ _ _ (findStyles_frame this w)) by done. by left.
  - rewrite obj_setObj. case_decide; subst; by left.
  - rewrite obj_setObj. case_decide; subst; by left.
  - rewrite obj_setObj. case_decide; subst; by left.
  - destruct (readyStateChange_rest rs w) as (H & _). unfold obj. rewrite H. by left.
  - unfold runMicrotask. destruct (microtasks w); by left.
  - unfold importsReady. destruct (importsQueue w); by left.
Qed.

Lemma exec_tracked op w : tracked w -> tracked (exec op w).
Proof.
  intros T p. destruct (T p) as [T1 T2]. split.
  - intros Hp.
    assert (Hin : exists i, p ∈ customStyles (registry w i)).
    { destruct (exec_processed op w p Hp) as [H|H]; [by apply T1 | done]. }
    destruct Hin as [i Hi]. exists i. rewrite exec_customStyles.
    apply elem_of_app. by left.
  - intros Ht.
    destruct (ef_transformOnce _ _ (exec_effect op w) p) as [[Hp Hc]|(_ & Hp & _)];
      [|done].
    rewrite Hp. apply T2. by rewrite <- Hc.
Qed.

Lemma init_tracked hasWhenReady rs : tracked (init hasWhenReady rs).
Proof.
  intros p. split.
  - unfold obj. simpl. by rewrite lookup_empty.
  - unfold transformsOf. simpl. lia.
Qed.

(** X12: in every reachable world an object that carries the processed
    marker was registered through [addCustomStyle]: it stands in the array
    of some instance and carries the seen marker; and the transform hook
    was called only for providers that carry the processed marker. *)
Theorem processed_only_if_registered w p :
  reachable w ->
  (processedByShadyCSS (obj w p) = true ->
   seenByShadyCSS (obj w p) = true /\
   exists i, p ∈ customStyles (registry w i)) /\
  (0 < transformsOf p (trace w) -> processedByShadyCSS (obj w p) = true).
Proof.
  intros Hw.
  assert (T : tracked w).
  { clear p. induction Hw as [wr rs | op w _ IH];
      [apply init_tracked | by apply exec_tracked]. }
  destruct (T p) as [T1 T2]. split; [|done].
  intros Hp. destruct (T1 Hp) as [i Hi]. split; [|by exists i].
  by apply (inv_seen _ (reachable_invariant w Hw) i).
Qed.

(** X13: both requests are idempotent in every world: a second
    [enqueueDocumentValidation] on the same instance, and a second
    [addCustomStyle] with the same object on any instance, give the world
    the first one gave. *)
Theorem requests_idempotent w this j style :
  enqueueDocumentValidation this (enqueueDocumentValidation this w) =
    enqueueDocumentValidation this w /\
  addCustomStyle j style (addCustomStyle this style w) = addCustomStyle this style w.
Proof.
  split.
  - destruct (enqueued (registry w this)) eqn:He.
    { rewrite (enqueueDocumentValidation_skip this w) by auto.
      by rewrite (enqueueDocumentValidation_skip this w) by auto. }
    destruct (validateFn w) as [vf|] eqn:Hv.
    2: { rewrite (enqueueDocumentValidation_skip this w) by auto.
         by rewrite (enqueueDocumentValidation_skip this w) by auto. }
    destruct (enqueueDocumentValidation_schedules this w vf He Hv) as (_ & Hr & _).
    apply enqueueDocumentValidation_skip. left. by rewrite Hr, decide_True.
  - apply addCustomStyle_seen, addCustomStyle_marks.
Qed.

(** * The further properties on sample worlds *)

Lemma no_validation_before_complete_witness :
  let ops := [OpSetValidate 0 (Some 9); OpAddCustomStyle 0 1;
              OpReadyStateChange interactive; OpMicrotask; OpEnqueue 1;
              OpFindStyles 0; OpMicrotask] in
  isComplete loading = false /\
  Forall (fun op => isCompletion op = false) ops /\
  validatedFns (trace (run ops (init false loading))) = [] /\
  reactionsOf (run ops (init false loading)) = [9; 9].
Proof.
  intros ops.
  assert (Hrs : isComplete loading = false) by reflexivity.
  assert (Hops : Forall (fun op => isCompletion op = false) ops)
    by (repeat constructor).
  destruct (no_validation_before_complete loading ops Hrs Hops) as (Hv & _ & Hr).
  split; [exact Hrs|]. split; [exact Hops|]. split; [exact Hv | exact Hr].
Defined.

Lemma validators_run_once_complete_witness :
  let w' := run (OpReadyStateChange complete ::
                 replicate (length (waiting asked_page)) OpMicrotask) asked_page in
  reachable asked_page /\
  whenReady asked_page = false /\
  validatedFns (trace w') = [9; 8] /\
  waiting w' = [].
Proof.
  intros w'.
  assert (Hr : reachable asked_page).
  { unfold asked_page, page. apply reachable_run, reachable_run, reach_init. }
  assert (Hp : whenReady asked_page = false) by reflexivity.
  destruct (validators_run_once_complete asked_page Hr Hp) as (Hv & _ & _ & Hw).
  split; [exact Hr|]. split; [exact Hp|]. split; [exact Hv | exact Hw].
Defined.

Lemma imports_path_ignores_document_witness :
  let w' := run (replicate (length (importsQueue imports_page)) OpImportsReady)
                imports_page in
  reachable imports_page /\
  whenReady imports_page = true /\
  readyPromise imports_page = None /\
  validatedFns (trace w') = [9; 8].
Proof.
  intros w'.
  assert (Hr : reachable imports_page).
  { unfold imports_page. apply reachable_run, reach_init. }
  assert (Hp : whenReady imports_page = true) by reflexivity.
  destruct (imports_path_ignores_document imports_page Hr Hp)
    as ((Hnone & _) & _ & Hv & _).
  split; [exact Hr|]. split; [exact Hp|]. split; [exact Hnone | exact Hv].
Defined.

Lemma validators_run_in_scheduling_order_witness :
  let ops := [OpSetValidate 0 (Some 5); OpReadyStateChange complete; OpMicrotask] in
  reachable asked_page /\
  scheduledFns (trace asked_page) = [9; 8] /\
  validatedFns (trace (run ops asked_page)) = [9] /\
  waiting (run ops asked_page) = [8].
Proof.
  intros ops.
  assert (Hr : reachable asked_page).
  { unfold asked_page, page. apply reachable_run, reachable_run, reach_init. }
  destruct (validators_run_in_scheduling_order asked_page ops Hr) as (Hf & _).
  split; [exact Hr|]. split; [|split; reflexivity].
  rewrite <- Hf. reflexivity.
Defined.

Lemma ready_wait_built_once_witness :
  let ops := [OpEnqueue 2; OpReadyStateChange complete; OpEnqueue 3;
              OpReadyStateChange loading; OpEnqueue 4] in
  reachable asked_page /\
  listeners (run ops asked_page) <= 1 /\
  readyPromise (run ops asked_page) <> None.
Proof.
  intros ops.
  assert (Hr : reachable asked_page).
  { unfold asked_page, page. apply reachable_run, reachable_run, reach_init. }
  destruct (ready_wait_built_once asked_page ops Hr) as (Hl & Hp & _).
  split; [exact Hr|]. split; [exact Hl|]. apply Hp. discriminate.
Defined.

Lemma complete_document_runs_next_witness :
  reachable loaded_page /\
  whenReady loaded_page = false /\
  isComplete (readyState loaded_page) = true /\
  validateFn loaded_page = Some 9 /\
  enqueued (registry loaded_page 0) = false /\
  listeners (enqueueDocumentValidation 0 loaded_page) = 0 /\
  trace (runMicrotask (enqueueDocumentValidation 0 loaded_page)) =
    [EvThen 0 9; EvValidate 9].
Proof.
  assert (Hr : reachable loaded_page).
  { unfold loaded_page. apply reachable_run, reach_init. }
  destruct (complete_document_runs_next loaded_page 0 9 Hr eq_refl eq_refl eq_refl eq_refl)
    as (_ & Hl & _ & Ht).
  split; [exact Hr|]. do 4 (split; [reflexivity|]).
  split; [exact Hl | exact (Ht eq_refl)].
Defined.

Lemma style_added_without_validator_witness :
  let w := init false loading in
  let w1 := addCustomStyle 0 1 w in
  validateFn w = None /\
  seenByShadyCSS (obj w 1) = false /\
  customStyles (registry w1 0) = [1] /\
  trace w1 = [] /\
  addCustomStyle 0 1 (set_validateCallback 0 (Some 9) w1) =
    set_validateCallback 0 (Some 9) w1.
Proof.
  intros w w1.
  destruct (style_added_without_validator w 0 1 eq_refl eq_refl)
    as (Hcs & _ & Ht & _ & Hno).
  split; [reflexivity|]. split; [reflexivity|].
  split; [exact Hcs|]. split; [exact Ht | exact (Hno 0 (Some 9) 0)].
Defined.



Lemma processed_only_if_registered_witness :
  let w := findStyles 0 styled_page in
  reachable w /\
  processedByShadyCSS (obj w 1) = true /\
  seenByShadyCSS (obj w 1) = true /\
  (exists i, 1 ∈ customStyles (registry w i)).
Proof.
  intros w.
  assert (Hr : reachable w).
  { apply (reach_step (OpFindStyles 0)). unfold styled_page, page.
    apply reachable_run, reachable_run, reach_init. }
  destruct (processed_only_if_registered w 1 Hr) as (H & _).
  assert (Hp : processedByShadyCSS (obj w 1) = true) by reflexivity.
  split; [exact Hr|]. split; [exact Hp | exact (H Hp)].
Defined.
